(** * SimPricing: the geometric-Brownian price-path engine ([base/engine.py])

    A shallow embedding of [_fast_sim_loop_geo_brownian] and of the class
    [SimEngine], and the properties of the engine that its specification
    states.

    Numbers.  The engine computes on float64 values through numpy.  The
    embedding is written over an abstract carrier [F] with the operations
    the code uses (class [Float64]).  The properties that do not rest on
    the arithmetic are proved for an arbitrary carrier; those that do are
    proved for [binary64], the arithmetic of the code, from the IEEE 754
    specification of its operations.  The real numbers [R_exact] are a second
    carrier, exact arithmetic: inputs are exhibited there, and the reading of
    a formula in exact arithmetic is kept there. *)

From Stdlib Require Import Floats.
From Stdlib Require Import Reals Lra.
From stdpp Require Import gmap strings list.

(** ** Arithmetic *)

Class Float64 (F : Type) := {
  f0 : F;                     (* the literal 0 *)
  f1 : F;                     (* the literal 1 *)
  f2 : F;                     (* the literal 2 *)
  fadd : F -> F -> F;
  fsub : F -> F -> F;
  fmul : F -> F -> F;
  fdiv : F -> F -> F;
  np_power2 : F -> F;         (* np.power(x, 2) *)
  np_exp : F -> F;
  np_sqrt : F -> F;
  fpos : F -> bool            (* 0 < x *)
}.

(** ** Exceptions and results *)

Inductive exn :=
  | ValueError (msg : string)
  | KeyError (key : string)
  | LinAlgError               (* numpy.linalg.LinAlgError *)
  | TypingError               (* numba.core.errors.TypingError *)
  | IndexError.

Inductive result (A : Type) :=
  | Ok (a : A)
  | Raise (e : exn).
Arguments Ok {A} a.
Arguments Raise {A} e.

#[export] Instance result_ret : MRet result := fun A a => Ok a.
#[export] Instance result_bind : MBind result := fun A B f m =>
  match m with Ok a => f a | Raise e => Raise e end.

Definition of_option {A} (e : exn) (o : option A) : result A :=
  match o with Some a => Ok a | None => Raise e end.

(** A [for] loop over a list that threads the loop-carried variables and
    stops at the first exception. *)
Fixpoint for_loop {S X} (body : S -> X -> result S) (st : S) (xs : list X)
  : result S :=
  match xs with
  | [] => Ok st
  | x :: xs' => st' ← body st x; for_loop body st' xs'
  end.

(** ** numpy arrays

    A 1-D array is the list of its entries; a 2-D array is the list of its
    rows. *)

(** The text of the compiled code's broadcasting error, which in numba also
    carries the position of the argument and the source line. *)
Definition broadcast_msg : string := "unable to broadcast argument to output array".

(** Elementwise binary operation on two 1-D arrays under numpy's
    broadcasting rule: equal lengths, or one of the two has length 1. *)
Definition broadcast {F} (f : F -> F -> F) (xs ys : list F) : result (list F) :=
  match xs, ys with
  | [x], _ => Ok (map (f x) ys)
  | _, [y] => Ok (map (fun x => f x y) xs)
  | _, _ => if decide (length xs = length ys) then Ok (zip_with f xs ys)
            else Raise (ValueError broadcast_msg)
  end.

(** [a[:, i]].  The compiled loop does not check bounds: a read past the end
    of a row returns whatever the memory holds there, and no exception.  That
    case is outside the model: it is answered by [IndexError], which the code
    never raises, and every statement about the loop either assumes or
    establishes that each row has a column [i]. *)
Definition column {F} (a : list (list F)) (i : nat) : result (list F) :=
  of_option IndexError (mapM (fun row => row !! i) a).

(** [a[t][j]] *)
Definition entry {F} (a : list (list F)) (t j : nat) : option F :=
  row ← a !! t; row !! j.

(** ** The path evolver *)

Section Evolver.
Context {F : Type} `{Float64 F}.

(** The right-hand side of the assignment in the loop body:
    [s_array * np.exp((r - np.power(sigma_array, 2) / 2) * t
                      + sigma_array * epsilon_current * np.sqrt(t))] *)
Definition gbm_update (s_array sigma_array : list F) (r t : F)
    (epsilon_current : list F) : result (list F) :=
  let drift :=
    map (fun a => fmul a t)
        (map (fun p => fsub r (fdiv p f2)) (map np_power2 sigma_array)) in
  se ← broadcast fmul sigma_array epsilon_current;
  let diffusion := map (fun c => fmul c (np_sqrt t)) se in
  e ← broadcast fadd drift diffusion;
  broadcast fmul s_array (map np_exp e).

Definition _fast_sim_loop_geo_brownian (s_0 : F) (n_dim : nat)
    (t_diff sigma_array : list F) (r : F) (epsilon : list (list F))
  : result (list (list F)) :=
  let prc := [] in
  let s_array := replicate n_dim s_0 in
  st ← for_loop
         (fun '(s_array, prc) '(t, i) =>
            epsilon_current ← column epsilon i;
            s_array ← gbm_update s_array sigma_array r t epsilon_current;
            Ok (s_array, prc ++ [s_array]))
         (s_array, prc)
         (zip t_diff (seq 0 (length t_diff)));
  Ok (snd st).

(** The loop as it is compiled when [r] is a 1-D array: the same lines, in
    which [r - np.power(sigma_array, 2) / 2] broadcasts [r] too. *)
Definition gbm_update_array_r (s_array sigma_array r : list F) (t : F)
    (epsilon_current : list F) : result (list F) :=
  a ← broadcast fsub r (map (fun p => fdiv p f2) (map np_power2 sigma_array));
  let drift := map (fun a => fmul a t) a in
  se ← broadcast fmul sigma_array epsilon_current;
  let diffusion := map (fun c => fmul c (np_sqrt t)) se in
  e ← broadcast fadd drift diffusion;
  broadcast fmul s_array (map np_exp e).

Definition _fast_sim_loop_geo_brownian_array_r (s_0 : F) (n_dim : nat)
    (t_diff sigma_array r : list F) (epsilon : list (list F))
  : result (list (list F)) :=
  let prc := [] in
  let s_array := replicate n_dim s_0 in
  st ← for_loop
         (fun '(s_array, prc) '(t, i) =>
            epsilon_current ← column epsilon i;
            s_array ← gbm_update_array_r s_array sigma_array r t epsilon_current;
            Ok (s_array, prc ++ [s_array]))
         (s_array, prc)
         (zip t_diff (seq 0 (length t_diff)));
  Ok (snd st).

End Evolver.

(** ** Python values held by the engine *)

Inductive seq_kind := KList | KTuple | KNdarray.
Inductive mat_kind := KMatrix | KNdarray2 | KNestedList.

(** The values a keyword argument can hold: a float, a flat sequence of
    floats (list, tuple or 1-D [numpy.ndarray]) or a rectangular table of
    floats ([numpy.matrix], 2-D [numpy.ndarray] or list of lists). *)
Inductive pyval (F : Type) :=
  | PyFloat (x : F)
  | PySeq (k : seq_kind) (xs : list F)
  | Py2D (k : mat_kind) (rows : list (list F)).
Arguments PyFloat {F} x.
Arguments PySeq {F} k xs.
Arguments Py2D {F} k rows.

(** [isinstance(v, list)] *)
Definition isinstance_list {F} (v : pyval F) : bool :=
  match v with
  | PySeq KList _ | Py2D KNestedList _ => true
  | _ => false
  end.

(** [len(v)] of a list *)
Definition len {F} (v : pyval F) : nat :=
  match v with
  | PyFloat _ => 0
  | PySeq _ xs => length xs
  | Py2D _ rows => length rows
  end.

(** The argument [upper_t]: a float or an iterable of floats. *)
Inductive pytimes (F : Type) :=
  | TFloat (t : F)
  | TSeq (ts : list F).
Arguments TFloat {F} t.
Arguments TSeq {F} ts.

(** [dict[key]] *)
Definition getitem {V} (d : gmap string V) (key : string) : result V :=
  of_option (KeyError key) (d !! key).

(** ** numpy routines used by the engine *)

Inductive ndarray (F : Type) :=
  | Arr1 (xs : list F)
  | Arr2 (rows : list (list F)).
Arguments Arr1 {F} xs.
Arguments Arr2 {F} rows.

(** The state of numpy's global generator: the sequence of standard-normal
    variates it will deliver and the number of variates drawn so far. *)
Record rng (F : Type) := { stream : nat -> F; drawn : nat }.
Arguments stream {F} _ _.
Arguments drawn {F} _.

Section Numpy.
Context {F : Type} `{Float64 F}.

(** [np.array(sigma_raw if isinstance(sigma_raw, Iterable) else [sigma_raw, ])] *)
Definition np_array_of_sigma (sigma_raw : pyval F) : ndarray F :=
  match sigma_raw with
  | PyFloat x => Arr1 [x]
  | PySeq _ xs => Arr1 xs
  | Py2D _ rows => Arr2 rows
  end.

(** [np.diff(upper_t, prepend=0)]: [a[1:] - a[:-1]] for [a = [0] + upper_t]. *)
Definition np_diff_prepend0 (upper_t : list F) : list F :=
  zip_with fsub upper_t (f0 :: upper_t).

(** [np.random.normal(0, 1, [n, m])]: the next [n * m] variates of the
    generator, laid out row by row. *)
Definition np_random_normal (n m : nat) (g : rng F) : list (list F) * rng F :=
  (map (fun i => map (fun j => stream g (drawn g + i * m + j)) (seq 0 m)) (seq 0 n),
   {| stream := stream g; drawn := drawn g + n * m |}).

Definition is_square (a : list (list F)) : bool :=
  forallb (fun row => length row =? length a) a.

(** [b - v v^T] *)
Definition rank1_downdate (b : list (list F)) (v : list F) : list (list F) :=
  zip_with (fun row vi => zip_with (fun bij vj => fsub bij (fmul vi vj)) row v) b v.

(** The lower Cholesky factor of the symmetric matrix whose lower triangle
    is that of the [n]-by-[n] array [a] (LAPACK [potrf], which numpy calls):
    the first column is the first column of [a] scaled by the root of the
    pivot, and the rest is the factor of the trailing block after the
    rank-one update.  The factorisation stops, with no result, at the first
    pivot that is not positive. *)
Fixpoint potrf (n : nat) (a : list (list F)) : option (list (list F)) :=
  match n with
  | 0 => Some []
  | S k =>
      let a11 := hd f0 (hd [] a) in
      if fpos a11 then
        let l11 := np_sqrt a11 in
        let l21 := map (fun row => fdiv (hd f0 row) l11) (tail a) in
        l22 ← potrf k (rank1_downdate (map tail (tail a)) l21);
        Some ((l11 :: replicate k f0) :: zip_with cons l21 l22)
      else None
  end.

(** [np.linalg.cholesky(v)]: [LinAlgError] unless [v] is two-dimensional,
    square and has positive pivots throughout. *)
Definition np_linalg_cholesky (v : pyval F) : result (list (list F)) :=
  match v with
  | Py2D _ a =>
      if is_square a then of_option LinAlgError (potrf (length a) a)
      else Raise LinAlgError
  | _ => Raise LinAlgError
  end.

Definition dot (u v : list F) : F :=
  foldr fadd f0 (zip_with fmul u v).

(** The matrix product [l x] of an [numpy.matrix] with a 2-D array. *)
Definition np_matmul (l x : list (list F)) : result (list (list F)) :=
  if forallb (fun row => length row =? length x) l then
    Ok (map (fun row =>
               foldr (zip_with fadd) (replicate (length (hd [] x)) f0)
                     (zip_with (fun c xrow => map (fmul c) xrow) row x))
            l)
  else Raise (ValueError "shapes not aligned").

End Numpy.

(** ** The engine *)

Module SimEngine.

(** The attributes of a [SimEngine] object.  [_n_dim] is set to [None] by
    the constructor and never read or written afterwards; the two timers
    [_time_1] and [_time_2], which hold wall-clock durations, are left out. *)
Record engine (F : Type) := {
  _method : string;
  _kwargs : gmap string (pyval F);
  _s_0 : F;
  _n_dim : option nat
}.
Arguments _method {F} _.
Arguments _kwargs {F} _.
Arguments _s_0 {F} _.
Arguments _n_dim {F} _.

(** The value bound to [upper_r]: the integer 1 or the Cholesky factor. *)
Inductive factor (F : Type) :=
  | One
  | Factor (l : list (list F)).
Arguments One {F}.
Arguments Factor {F} l.

Section Engine.
Context {F : Type} `{Float64 F}.

Definition full_methods : list string := ["GeoBrownian"].

Definition full_kwarg_map : gmap string (list string) :=
  {[ "GeoBrownian" := ["sigma"; "r"; "rho"] ]}.

(** [SimEngine(method, s_0, **kwargs)].  The initial price is given by its
    float value, on which [float(s_0)] is the identity. *)
Definition __init__ (method : string) (s_0 : F) (kwargs : gmap string (pyval F))
  : result (engine F) :=
  if bool_decide (method ∈ full_methods) then
    _ ← for_loop
          (fun _ key =>
             allowed ← getitem full_kwarg_map method;
             if bool_decide (key ∈ allowed) then Ok tt
             else Raise (ValueError "Illegal input of kwargs!"))
          tt (map fst (map_to_list kwargs));
    Ok {| _method := method; _kwargs := kwargs; _s_0 := s_0; _n_dim := None |}
  else Raise (ValueError "Illegal input of method!").

Definition kwargs (self : engine F) : gmap string (pyval F) := _kwargs self.

Definition s_0 (self : engine F) : F := _s_0 self.

Definition n_dim (self : engine F) : result nat :=
  if String.eqb (_method self) "GeoBrownian" then
    sigma ← getitem (kwargs self) "sigma";
    if isinstance_list sigma then Ok (len sigma) else Ok 1
  else Raise (ValueError "").

(** Computations that may raise and that read the random generator. *)
Definition M (A : Type) : Type := rng F -> result A * rng F.

#[local] Instance M_ret : MRet M := fun A a g => (Ok a, g).
#[local] Instance M_bind : MBind M := fun A B f m g =>
  match m g with
  | (Ok a, g') => f a g'
  | (Raise e, g') => (Raise e, g')
  end.

Definition lift {A} (m : result A) : M A := fun g => (m, g).

Definition draw_normal (n m : nat) : M (list (list F)) :=
  fun g => let (x, g') := np_random_normal n m g in (Ok x, g').

(** [upper_r * x]: a scalar times an array, or a [numpy.matrix] times an
    array, which is the matrix product. *)
Definition star (upper_r : factor F) (x : list (list F)) : result (list (list F)) :=
  match upper_r with
  | One => Ok (map (map (fmul f1)) x)
  | Factor l => np_matmul l x
  end.

(** The call of the compiled loop.  It is compiled for a float [s_0], an
    integer [n_dim], 1-D arrays [t_diff] and [sigma_array], a 2-D array
    [epsilon] and an [r] that is a float or a 1-D array, which the loop
    broadcasts; a list, a tuple or a 2-D array in the place of [r], or a 2-D
    [sigma_array], does not type. *)
Definition jit_call (s_0 : F) (n_dim : nat) (t_diff : list F)
    (sigma_array : ndarray F) (r : pyval F) (epsilon : list (list F))
  : result (list (list F)) :=
  match sigma_array, r with
  | Arr1 sigma_array, PyFloat r =>
      _fast_sim_loop_geo_brownian s_0 n_dim t_diff sigma_array r epsilon
  | Arr1 sigma_array, PySeq KNdarray r =>
      _fast_sim_loop_geo_brownian_array_r s_0 n_dim t_diff sigma_array r epsilon
  | _, _ => Raise TypingError
  end.

(** [upper_t if isinstance(upper_t, Iterable) else [upper_t, ]] *)
Definition promote (upper_t : pytimes F) : list F :=
  match upper_t with
  | TFloat t => [t]
  | TSeq ts => ts
  end.

(** [prc_generator(upper_t)], without the readings of the clock. *)
Definition prc_generator (self : engine F) (upper_t : pytimes F)
  : M (list (list F)) :=
  let upper_t := promote upper_t in
  if String.eqb (_method self) "GeoBrownian" then
    sigma_raw ← lift (getitem (kwargs self) "sigma");
    let sigma_array := np_array_of_sigma sigma_raw in
    r ← lift (getitem (kwargs self) "r");
    let t_diff := np_diff_prepend0 upper_t in
    n ← lift (n_dim self);
    upper_r ← (if 1 <? n then
                 rho ← lift (getitem (kwargs self) "rho");
                 upper_r ← lift (np_linalg_cholesky rho);
                 match rho with
                 | Py2D KMatrix rows =>
                     if negb (length rows =? length (hd [] rows))
                     then lift (Raise (ValueError "Illegal input dimension of rho"))
                     else
                       n ← lift (n_dim self);
                       if negb (length rows =? n)
                       then lift (Raise (ValueError "Illegal input dimension of rho"))
                       else mret (Factor upper_r)
                 | _ => lift (Raise (ValueError "Illegal input type of rho"))
                 end
               else mret One);
    n ← lift (n_dim self);
    x ← draw_normal n (length t_diff);
    epsilon ← lift (star upper_r x);
    n ← lift (n_dim self);
    prc ← lift (jit_call (s_0 self) n t_diff sigma_array r epsilon);
    mret prc
  else lift (Raise (ValueError "")).

End Engine.
End SimEngine.

(** ** The carriers *)

(** A stand-in for the platform's [exp] on doubles, whose values IEEE 754
    does not fix: the values that C99 prescribes at nan, at the zeros and at
    the infinities, and elsewhere the Taylor polynomial of degree 14 at
    [x / 1024], squared ten times. *)
Definition series_exp (x : float) : float :=
  if PrimFloat.is_nan x then nan
  else if PrimFloat.eqb x 0 then 1%float
  else if PrimFloat.ltb 800 x then infinity
  else if PrimFloat.ltb x (-800) then 0%float
  else
    let y := (x / 1024)%float in
    let p :=
      fold_right (fun k acc => (1 + y * acc / k)%float) 1%float
                 [1; 2; 3; 4; 5; 6; 7; 8; 9; 10; 11; 12; 13; 14]%float in
    Nat.iter 10 (fun q => (q * q)%float) p.

(** Binary64 arithmetic, with [exp] for the platform's exponential.  The
    square [np.power(x, 2)] is the rounded product [x * x]. *)
Definition binary64_with (exp : float -> float) : Float64 float := {|
  f0 := 0%float;
  f1 := 1%float;
  f2 := 2%float;
  fadd := PrimFloat.add;
  fsub := PrimFloat.sub;
  fmul := PrimFloat.mul;
  fdiv := PrimFloat.div;
  np_power2 := fun x => (x * x)%float;
  np_exp := exp;
  np_sqrt := PrimFloat.sqrt;
  fpos := fun x => PrimFloat.ltb 0 x
|}.

#[export] Instance binary64 : Float64 float := binary64_with series_exp.

(** The real numbers: exact arithmetic, with no rounding, no overflow and no
    nan (the root of a negative number is 0).  This is not the arithmetic of
    the code. *)
#[export] Instance R_exact : Float64 R := {|
  f0 := 0%R;
  f1 := 1%R;
  f2 := 2%R;
  fadd := Rplus;
  fsub := Rminus;
  fmul := Rmult;
  fdiv := Rdiv;
  np_power2 := fun x => (x * x)%R;
  np_exp := exp;
  np_sqrt := sqrt;
  fpos := fun x => if Rlt_dec 0 x then true else false
|}.

(** ** Notions used in the statements *)

Section Statements.
Context {F : Type} `{Float64 F}.

(** The growth factor of one asset over one step, as the specification
    writes it: [exp((r - sigma^2/2) * dt + sigma * eps * sqrt(dt))]. *)
Definition growth (r sigma dt eps : F) : F :=
  np_exp (fadd (fmul (fsub r (fdiv (np_power2 sigma) f2)) dt)
               (fmul (fmul sigma eps) (np_sqrt dt))).


(** An array with [m] rows and [n] columns. *)
Definition has_shape (m n : nat) (a : list (list F)) : Prop :=
  length a = m /\ Forall (fun row => length row = n) a.

(** The price of asset [j] before step [t] of the path [prc]: the initial
    price before the first step, the previous row afterwards. *)
Definition previous (s_0 : F) (prc : list (list F)) (t j : nat) : option F :=
  match t with
  | 0 => Some s_0
  | S t' => entry prc t' j
  end.



(** The quadratic form [x^T a x]. *)
Definition qform (a : list (list F)) (x : list F) : F :=
  dot x (map (fun row => dot row x) a).

Definition symmetric (a : list (list F)) : Prop :=
  forall i j, entry a i j = entry a j i.


End Statements.

(** Positive definiteness of an [n]-by-[n] real matrix. *)
Definition positive_definite (n : nat) (a : list (list R)) : Prop :=
  forall x, length x = n -> x <> replicate n 0%R -> (0 < qform a x)%R.

(** The time elapsed at the end of step [t]: the sum of the time deltas of
    the steps [0..t]. *)
Definition elapsed (t_diff : list R) (t : nat) : R :=
  foldr Rplus 0%R (take (S t) t_diff).

(** The real number that a finite double stands for ([m * 2^e] with its
    sign); 0 for an infinity and for nan, which stand for none. *)
Definition real_of (x : float) : R :=
  match Prim2SF x with
  | S754_finite s m e =>
      let v := IZR (if s then Zneg m else Zpos m) in
      match e with
      | Zneg p => (v / IZR (Zpos (2 ^ p)))%R
      | _ => (v * IZR (2 ^ e))%R
      end
  | _ => 0%R
  end.

(** ** Sample configurations

    The configuration of the module's own driver (two assets of volatility
    0.2, rate 0.03, correlation 0.5) and variations of it. *)

Definition sample_sigma : list R := [1 / 5; 1 / 5]%R.

Definition sample_rho : list (list R) := [[1; 1 / 2]; [1 / 2; 1]]%R.

Definition identity3 : list (list R) := [[1; 0; 0]; [0; 1; 0]; [0; 0; 1]]%R.

Definition indefinite_rho : list (list R) := [[1; 2]; [2; 1]]%R.

Definition configuration (sigma rho : pyval R) : gmap string (pyval R) :=
  <["sigma" := sigma]> (<["r" := PyFloat (3 / 100)%R]> (<["rho" := rho]> ∅)).

Definition sample_kwargs : gmap string (pyval R) :=
  configuration (PySeq KList sample_sigma) (Py2D KMatrix sample_rho).

Definition oversized_rho_kwargs : gmap string (pyval R) :=
  configuration (PySeq KList sample_sigma) (Py2D KMatrix identity3).

Definition indefinite_rho_kwargs : gmap string (pyval R) :=
  configuration (PySeq KList sample_sigma) (Py2D KMatrix indefinite_rho).

Definition tuple_sigma_kwargs : gmap string (pyval R) :=
  configuration (PySeq KTuple sample_sigma) (Py2D KMatrix sample_rho).

Definition scalar_sigma_kwargs : gmap string (pyval R) :=
  configuration (PyFloat (2 / 5)%R) (Py2D KMatrix sample_rho).

Definition no_sigma_kwargs : gmap string (pyval R) :=
  <["r" := PyFloat (3 / 100)%R]> ∅.

Definition sample_engine (kw : gmap string (pyval R)) : SimEngine.engine R :=
  {| SimEngine._method := "GeoBrownian";
     SimEngine._kwargs := kw;
     SimEngine._s_0 := 100%R;
     SimEngine._n_dim := None |}.

Definition sample_rng : rng R := {| stream := INR; drawn := 0 |}.

Definition unlisted_key_kwargs : gmap string (pyval R) :=
  <["mu" := PyFloat (1 / 10)%R]> sample_kwargs.

Definition no_r_kwargs : gmap string (pyval R) :=
  <["sigma" := PySeq KList sample_sigma]>
    (<["rho" := Py2D KMatrix indefinite_rho]> ∅).

Definition no_rho_kwargs : gmap string (pyval R) :=
  <["sigma" := PySeq KList sample_sigma]> (<["r" := PyFloat (3 / 100)%R]> ∅).

Definition oversized_ndarray_kwargs : gmap string (pyval R) :=
  configuration (PySeq KList sample_sigma) (Py2D KNdarray2 identity3).

(** ** Sample configurations in binary64

    The configuration of the module's own driver with its numbers as the
    doubles that Python reads them as, and variations of it. *)

(** [0.2], the double nearest to 1/5. *)
Definition b64_volatility : float := 0x1.999999999999ap-3%float.

(** [0.03], the double nearest to 3/100. *)
Definition b64_rate : float := 0x1.eb851eb851eb8p-6%float.

Definition b64_sigma : list float := [b64_volatility; b64_volatility].

Definition b64_sigma3 : list float :=
  [b64_volatility; b64_volatility; b64_volatility].

Definition b64_rho : list (list float) := [[1; 0.5]; [0.5; 1]]%float.

(** The example of the specification: symmetric, with eigenvalues 3 and -1. *)
Definition b64_indefinite_rho : list (list float) := [[1; 2]; [2; 1]]%float.

(** Two perfectly correlated assets: positive semidefinite and singular. *)
Definition b64_singular_rho : list (list float) := [[1; 1]; [1; 1]]%float.


(** A correlation matrix (symmetric, unit diagonal) whose determinant is
    about 8.3e-17: it is positive definite.  Its last entry of the second
    row is the double next above -1/2. *)
Definition near_singular_definite_rho : list (list float) :=
  [[1; 0.5; 0.5];
   [0.5; 1; -0x1.fffffffffffffp-2];
   [0.5; -0x1.fffffffffffffp-2; 1]]%float.

Definition b64_configuration (sigma rho : pyval float)
  : gmap string (pyval float) :=
  <["sigma" := sigma]> (<["r" := PyFloat b64_rate]> (<["rho" := rho]> ∅)).

Definition b64_sample_kwargs : gmap string (pyval float) :=
  b64_configuration (PySeq KList b64_sigma) (Py2D KMatrix b64_rho).


Definition b64_singular_kwargs : gmap string (pyval float) :=
  b64_configuration (PySeq KList b64_sigma) (Py2D KMatrix b64_singular_rho).

Definition b64_tuple_kwargs : gmap string (pyval float) :=
  b64_configuration (PySeq KTuple b64_sigma) (Py2D KMatrix b64_rho).

Definition b64_ndarray_kwargs : gmap string (pyval float) :=
  b64_configuration (PySeq KList b64_sigma) (Py2D KNdarray2 b64_rho).

Definition b64_indefinite_ndarray_kwargs : gmap string (pyval float) :=
  b64_configuration (PySeq KList b64_sigma)
                    (Py2D KNdarray2 b64_indefinite_rho).


Definition near_singular_definite_kwargs : gmap string (pyval float) :=
  b64_configuration (PySeq KList b64_sigma3)
                    (Py2D KNdarray2 near_singular_definite_rho).

Definition b64_engine (kw : gmap string (pyval float)) : SimEngine.engine float :=
  {| SimEngine._method := "GeoBrownian";
     SimEngine._kwargs := kw;
     SimEngine._s_0 := 100%float;
     SimEngine._n_dim := None |}.

(** A generator that delivers 0.5, -0.25, 0.5, -0.25, ... *)
Definition b64_rng : rng float :=
  {| stream := fun i => if Nat.even i then 0.5%float else (-0.25)%float;
     drawn := 0 |}.

(** ** The path evolver: proofs *)

Section EvolverProofs.
Context {F : Type} `{Float64 F}.

Lemma broadcast_same_length (f : F -> F -> F) (xs ys : list F) :
  length xs = length ys -> broadcast f xs ys = Ok (zip_with f xs ys).
Proof.
  intros Hlen. unfold broadcast.
  destruct xs as [|x [|x' xs]], ys as [|y [|y' ys]];
    simpl in *; try discriminate; try reflexivity.
  rewrite decide_True by (simpl; congruence). reflexivity.
Qed.

Lemma column_spec (a : list (list F)) (m i : nat) :
  Forall (fun row => length row = m) a -> i < m ->
  exists c, column a i = Ok c /\ length c = length a /\
            forall j, c !! j = (a !! j) ≫= (fun row => row !! i).
Proof.
  intros Hrows Hi. unfold column.
  induction Hrows as [|row a Hrow Hrows IH]; simpl.
  - exists []. split; [reflexivity|]. split; [reflexivity|]. intros j. reflexivity.
  - destruct IH as (c & Hc & Hlen & Hget).
    destruct (lookup_lt_is_Some_2 row i) as [v Hv]; [lia|].
    destruct (mapM _ a) as [c'|] eqn:Hm; [|discriminate].
    simpl in Hc. injection Hc as ->.
    exists (v :: c). rewrite Hv. simpl. split; [reflexivity|].
    split; [simpl; congruence|].
    intros [|j]; simpl; [rewrite Hv; reflexivity | apply Hget].
Qed.

Lemma gbm_update_spec (n : nat) (s sigma eps : list F) (r t : F) :
  length s = n -> length sigma = n -> length eps = n ->
  exists s', gbm_update s sigma r t eps = Ok s' /\ length s' = n /\
    forall j p sg e, s !! j = Some p -> sigma !! j = Some sg -> eps !! j = Some e ->
      s' !! j = Some (fmul p (growth r sg t e)).
Proof.
  intros Hs Hsg He. unfold gbm_update.
  rewrite (broadcast_same_length fmul sigma eps) by congruence. simpl.
  rewrite broadcast_same_length
    by (rewrite !length_map, length_zip_with; lia).
  simpl. rewrite broadcast_same_length
    by (rewrite length_map, length_zip_with, !length_map, length_zip_with; lia).
  eexists. split; [reflexivity|]. split.
  - rewrite length_zip_with, length_map, length_zip_with, !length_map,
      length_zip_with. lia.
  - intros j p sg e Hp Hsgj Hej.
    rewrite lookup_zip_with, Hp. simpl.
    rewrite list_lookup_fmap, lookup_zip_with, !list_lookup_fmap, Hsgj. simpl.
    rewrite lookup_zip_with, Hsgj. simpl. rewrite Hej. reflexivity.
Qed.

(** The loop, started at column [i] with the prices [s] and the rows [prc]
    collected so far. *)
Lemma fast_sim_loop_invariant (n m : nat) (sigma : list F) (r : F)
    (epsilon : list (list F)) :
  length sigma = n -> has_shape n m epsilon ->
  forall (ts : list F) (i : nat) (s : list F) (prc : list (list F)),
    length s = n -> i + length ts <= m ->
    exists s' rows,
      for_loop
        (fun '(s_array, prc) '(t, i) =>
           epsilon_current ← column epsilon i;
           s_array ← gbm_update s_array sigma r t epsilon_current;
           Ok (s_array, prc ++ [s_array]))
        (s, prc) (zip ts (seq i (length ts))) = Ok (s', prc ++ rows) /\
      has_shape (length ts) n rows /\
      forall k j dt sg e,
        ts !! k = Some dt -> sigma !! j = Some sg ->
        entry epsilon j (i + k) = Some e ->
        exists prev,
          match k with 0 => s !! j | S k' => entry rows k' j end = Some prev /\
          entry rows k j = Some (fmul prev (growth r sg dt e)).
Proof.
  intros Hsigma [Hen Herows] ts.
  induction ts as [|t ts IH]; intros i s prc Hs Hi; simpl.
  - exists s, []. rewrite app_nil_r. split; [reflexivity|].
    split; [split; [reflexivity | constructor]|].
    intros k j dt sg e Hk. discriminate.
  - simpl in Hi.
    destruct (column_spec epsilon m i Herows) as (c & Hc & Hclen & Hcget); [lia|].
    rewrite Hc. simpl.
    destruct (gbm_update_spec n s sigma c r t Hs Hsigma) as (s1 & Hupd & Hs1 & Hs1get);
      [congruence|].
    rewrite Hupd. simpl.
    destruct (IH (S i) s1 (prc ++ [s1]) Hs1) as (s' & rows & Hloop & [Hrl Hrs] & Hrows);
      [lia|].
    exists s', (s1 :: rows). rewrite Hloop, <- app_assoc. simpl.
    split; [reflexivity|].
    split; [split; [simpl; congruence | constructor; assumption]|].
    intros k j dt sg e Hk Hsg He.
    destruct k as [|k]; simpl in Hk.
    + injection Hk as ->. rewrite Nat.add_0_r in He.
      unfold entry in He. simpl in He.
      destruct (epsilon !! j) as [row|] eqn:Hrow; [|discriminate]. simpl in He.
      assert (Hcj : c !! j = Some e) by (rewrite Hcget, Hrow; exact He).
      destruct (lookup_lt_is_Some_2 s j) as [p Hp].
      { rewrite Hs, <- Hsigma. eapply lookup_lt_Some; eassumption. }
      exists p. split; [assumption|].
      unfold entry. simpl. apply Hs1get; assumption.
    + replace (i + S k) with (S i + k) in He by lia.
      destruct (Hrows k j dt sg e Hk Hsg He) as (prev & Hprev & Hent).
      exists prev. split; [|exact Hent].
      destruct k as [|k]; [exact Hprev | exact Hprev].
Qed.

Lemma fast_sim_loop_spec (s_0 r : F) (n T : nat)
    (t_diff sigma : list F) (epsilon : list (list F)) :
  length t_diff = T -> length sigma = n -> has_shape n T epsilon ->
  exists prc,
    _fast_sim_loop_geo_brownian s_0 n t_diff sigma r epsilon = Ok prc /\
    has_shape T n prc /\
    forall t j dt sg e,
      t_diff !! t = Some dt -> sigma !! j = Some sg ->
      entry epsilon j t = Some e ->
      exists prev,
        previous s_0 prc t j = Some prev /\
        entry prc t j = Some (fmul prev (growth r sg dt e)).
Proof.
  intros HT Hsigma Heps. unfold _fast_sim_loop_geo_brownian.
  destruct (fast_sim_loop_invariant n T sigma r epsilon Hsigma Heps
              t_diff 0 (replicate n s_0) [])
    as (s' & rows & Hloop & Hshape & Hrows).
  { apply length_replicate. }
  { lia. }
  rewrite Hloop. simpl. exists rows. split; [reflexivity|].
  split; [rewrite <- HT; exact Hshape|].
  intros t j dt sg e Ht Hsg He.
  destruct (Hrows t j dt sg e Ht Hsg He) as (prev & Hprev & Hent).
  exists prev. split; [|exact Hent].
  destruct t as [|t]; simpl; [|exact Hprev].
  apply lookup_replicate in Hprev as [-> _]. reflexivity.
Qed.

(** C1.  On a time-delta sequence of length [T], a volatility vector of
    length [n] and an [n]-by-[T] shock matrix, the path evolver returns [T]
    price vectors of length [n]; the price of asset [j] at step [t] is its
    price before that step (the initial price [s_0] at the first step),
    multiplied by [exp((r - sigma_j^2/2) * dt_t + sigma_j * eps_jt * sqrt(dt_t))]. *)
Theorem path_evolver_recurrence (s_0 r : F) (n T : nat)
    (t_diff sigma : list F) (epsilon : list (list F)) :
  length t_diff = T -> length sigma = n -> has_shape n T epsilon ->
  exists prc,
    _fast_sim_loop_geo_brownian s_0 n t_diff sigma r epsilon = Ok prc /\
    has_shape T n prc /\
    forall t j dt sg e,
      t_diff !! t = Some dt -> sigma !! j = Some sg ->
      entry epsilon j t = Some e ->
      exists prev,
        previous s_0 prc t j = Some prev /\
        entry prc t j = Some (fmul prev (growth r sg dt e)).
Proof. apply fast_sim_loop_spec. Qed.

End EvolverProofs.

(** ** Construction: proofs *)

Section ConstructionProofs.
Context {F : Type} `{Float64 F}.
Import SimEngine.

(** The keys the model [GeoBrownian] accepts. *)
Lemma getitem_full_kwarg_map :
  getitem full_kwarg_map "GeoBrownian" = Ok ["sigma"; "r"; "rho"].
Proof. reflexivity. Qed.

Lemma check_keys_ok (keys : list string) :
  Forall (fun key => key ∈ ["sigma"; "r"; "rho"]) keys ->
  for_loop
    (fun (_ : unit) key =>
       allowed ← getitem full_kwarg_map "GeoBrownian";
       if bool_decide (key ∈ allowed) then Ok tt
       else Raise (ValueError "Illegal input of kwargs!"))
    tt keys = Ok tt.
Proof.
  induction 1 as [|key keys Hkey Hkeys IH]; simpl; [reflexivity|].
  rewrite getitem_full_kwarg_map. simpl.
  rewrite bool_decide_eq_true_2 by exact Hkey. simpl. exact IH.
Qed.

Lemma check_keys_inv (keys : list string) (u : unit) :
  for_loop
    (fun (_ : unit) key =>
       allowed ← getitem full_kwarg_map "GeoBrownian";
       if bool_decide (key ∈ allowed) then Ok tt
       else Raise (ValueError "Illegal input of kwargs!"))
    tt keys = Ok u ->
  Forall (fun key => key ∈ ["sigma"; "r"; "rho"]) keys.
Proof.
  induction keys as [|key keys IH]; simpl; [constructor|].
  rewrite getitem_full_kwarg_map. simpl.
  destruct (bool_decide (key ∈ ["sigma"; "r"; "rho"])) eqn:Hkey; simpl;
    [|discriminate].
  intros Hrest. constructor; [|exact (IH Hrest)].
  apply bool_decide_eq_true_1 in Hkey. exact Hkey.
Qed.

(** The keys of a dictionary are those with a value. *)
Lemma keys_whitelisted (kw : gmap string (pyval F)) :
  Forall (fun key => key ∈ ["sigma"; "r"; "rho"]) (map fst (map_to_list kw)) <->
  (forall key, is_Some (kw !! key) -> key ∈ ["sigma"; "r"; "rho"]).
Proof.
  rewrite Forall_forall. split.
  - intros Hall key [v Hv]. apply Hall.
    apply (list_elem_of_fmap_2 fst _ (key, v)).
    apply elem_of_map_to_list. exact Hv.
  - intros Hall key Hin. apply list_elem_of_fmap in Hin as ([k v] & -> & Hin).
    apply elem_of_map_to_list in Hin. apply Hall. exists v. exact Hin.
Qed.

Lemma init_ok (s0 : F) (kw : gmap string (pyval F)) :
  (forall key, is_Some (kw !! key) -> key ∈ ["sigma"; "r"; "rho"]) ->
  __init__ "GeoBrownian" s0 kw =
    Ok {| _method := "GeoBrownian"; _kwargs := kw; _s_0 := s0;
          _n_dim := None |}.
Proof.
  intros Hkeys. unfold __init__. simpl.
  rewrite check_keys_ok by (apply keys_whitelisted; exact Hkeys).
  reflexivity.
Qed.

Lemma init_inv (method : string) (s0 : F) (kw : gmap string (pyval F))
    (self : engine F) :
  __init__ method s0 kw = Ok self ->
  method = "GeoBrownian" /\
  (forall key, is_Some (kw !! key) -> key ∈ ["sigma"; "r"; "rho"]) /\
  self = {| _method := "GeoBrownian"; _kwargs := kw; _s_0 := s0;
          _n_dim := None |}.
Proof.
  unfold __init__.
  destruct (bool_decide (method ∈ full_methods)) eqn:Hm; [|discriminate].
  apply bool_decide_eq_true_1 in Hm. apply list_elem_of_singleton in Hm as ->.
  destruct (for_loop _ tt _) as [u|e] eqn:Hloop; simpl; [|discriminate].
  intros [= <-]. split; [reflexivity|]. split; [|reflexivity].
  apply keys_whitelisted. exact (check_keys_inv _ u Hloop).
Qed.

End ConstructionProofs.

(** ** The simulate call: how it unfolds *)

Section GeneratorProofs.
Context {F : Type} `{Float64 F}.
Import SimEngine.

#[local] Arguments np_linalg_cholesky : simpl never.
#[local] Arguments n_dim : simpl never.
#[local] Arguments jit_call : simpl never.
#[local] Arguments star : simpl never.
#[local] Arguments np_diff_prepend0 : simpl never.
#[local] Arguments promote : simpl never.

Lemma n_dim_spec (self : engine F) (sigma : pyval F) :
  _method self = "GeoBrownian" -> _kwargs self !! "sigma" = Some sigma ->
  n_dim self = Ok (if isinstance_list sigma then len sigma else 1).
Proof.
  intros Hm Hs. unfold n_dim, kwargs, getitem. rewrite Hm, Hs. simpl.
  destruct (isinstance_list sigma); reflexivity.
Qed.

Lemma n_dim_no_sigma (self : engine F) :
  _method self = "GeoBrownian" -> _kwargs self !! "sigma" = None ->
  n_dim self = Raise (KeyError "sigma").
Proof.
  intros Hm Hs. unfold n_dim, kwargs, getitem. rewrite Hm, Hs. reflexivity.
Qed.

Lemma prc_generator_no_sigma (self : engine F) upper_t g :
  _method self = "GeoBrownian" -> _kwargs self !! "sigma" = None ->
  prc_generator self upper_t g = (Raise (KeyError "sigma"), g).
Proof.
  intros Hm Hs. unfold prc_generator. rewrite Hm. simpl.
  unfold kwargs, getitem. rewrite Hs. reflexivity.
Qed.

Ltac generator_head Hm Hs Hr Hn :=
  unfold prc_generator; rewrite Hm; simpl;
  unfold kwargs, getitem; rewrite Hs, Hr; simpl;
  unfold mbind, M_bind, lift; simpl; rewrite ?Hn.

Ltac large_dimension n :=
  let E := fresh "E" in
  destruct (1 <? n) eqn:E; [|apply Nat.ltb_ge in E; lia].

(** With at most one dimension: no factorisation, the draws scaled by 1. *)
Lemma prc_generator_small (self : engine F) upper_t g sigma r n :
  _method self = "GeoBrownian" -> _kwargs self !! "sigma" = Some sigma ->
  _kwargs self !! "r" = Some r -> n_dim self = Ok n -> n <= 1 ->
  let t_diff := np_diff_prepend0 (promote upper_t) in
  let x := fst (np_random_normal n (length t_diff) g) in
  prc_generator self upper_t g =
    (jit_call (s_0 self) n t_diff (np_array_of_sigma sigma) r
              (map (map (fmul f1)) x),
     snd (np_random_normal n (length t_diff) g)).
Proof.
  intros Hm Hs Hr Hn Hle. generator_head Hm Hs Hr Hn.
  destruct (1 <? n) eqn:E; [apply Nat.ltb_lt in E; lia|].
  simpl. destruct (jit_call _ _ _ _ _ _); reflexivity.
Qed.

Lemma prc_generator_no_rho (self : engine F) upper_t g sigma r n :
  _method self = "GeoBrownian" -> _kwargs self !! "sigma" = Some sigma ->
  _kwargs self !! "r" = Some r -> n_dim self = Ok n -> 1 < n ->
  _kwargs self !! "rho" = None ->
  prc_generator self upper_t g = (Raise (KeyError "rho"), g).
Proof.
  intros Hm Hs Hr Hn Hlt Hrho. generator_head Hm Hs Hr Hn.
  large_dimension n. rewrite Hrho. reflexivity.
Qed.

(** The factorisation comes first: its failure is the failure of the call. *)
Lemma prc_generator_cholesky_fails (self : engine F) upper_t g sigma r n rho e :
  _method self = "GeoBrownian" -> _kwargs self !! "sigma" = Some sigma ->
  _kwargs self !! "r" = Some r -> n_dim self = Ok n -> 1 < n ->
  _kwargs self !! "rho" = Some rho ->
  np_linalg_cholesky rho = Raise e ->
  prc_generator self upper_t g = (Raise e, g).
Proof.
  intros Hm Hs Hr Hn Hlt Hrho Hchol. generator_head Hm Hs Hr Hn.
  large_dimension n. rewrite Hrho. simpl. rewrite Hchol. reflexivity.
Qed.

Lemma prc_generator_rho_type (self : engine F) upper_t g sigma r n rho l :
  _method self = "GeoBrownian" -> _kwargs self !! "sigma" = Some sigma ->
  _kwargs self !! "r" = Some r -> n_dim self = Ok n -> 1 < n ->
  _kwargs self !! "rho" = Some rho ->
  np_linalg_cholesky rho = Ok l ->
  (forall rows, rho <> Py2D KMatrix rows) ->
  prc_generator self upper_t g =
    (Raise (ValueError "Illegal input type of rho"), g).
Proof.
  intros Hm Hs Hr Hn Hlt Hrho Hchol Htype. generator_head Hm Hs Hr Hn.
  large_dimension n. rewrite Hrho. simpl. rewrite Hchol.
  destruct rho as [x|k xs|[| |] rows]; try reflexivity.
  destruct (Htype rows eq_refl).
Qed.

Lemma prc_generator_rho_dim (self : engine F) upper_t g sigma r n rows l :
  _method self = "GeoBrownian" -> _kwargs self !! "sigma" = Some sigma ->
  _kwargs self !! "r" = Some r -> n_dim self = Ok n -> 1 < n ->
  _kwargs self !! "rho" = Some (Py2D KMatrix rows) ->
  np_linalg_cholesky (Py2D KMatrix rows) = Ok l ->
  length rows <> n ->
  prc_generator self upper_t g =
    (Raise (ValueError "Illegal input dimension of rho"), g).
Proof.
  intros Hm Hs Hr Hn Hlt Hrho Hchol Hdim. generator_head Hm Hs Hr Hn.
  large_dimension n. rewrite Hrho. simpl. rewrite Hchol.
  destruct (length rows =? length (hd [] rows)); simpl; [|reflexivity].
  destruct (length rows =? n) eqn:E'; [apply Nat.eqb_eq in E'; lia|].
  reflexivity.
Qed.

Lemma is_square_shape (a : list (list F)) :
  is_square a = true <-> has_shape (length a) (length a) a.
Proof.
  unfold is_square, has_shape. rewrite forallb_forall, Forall_forall.
  split.
  - intros Hall. split; [reflexivity|]. intros row Hin.
    apply Nat.eqb_eq, Hall, list_elem_of_In, Hin.
  - intros [_ Hall] row Hin. apply Nat.eqb_eq, Hall, list_elem_of_In, Hin.
Qed.

Lemma cholesky_inv (rho : pyval F) (l : list (list F)) :
  np_linalg_cholesky rho = Ok l ->
  exists k rows, rho = Py2D k rows /\ is_square rows = true /\
                 potrf (length rows) rows = Some l.
Proof.
  unfold np_linalg_cholesky. destruct rho as [x|k xs|k rows]; try discriminate.
  destruct (is_square rows) eqn:Hsq; [|discriminate].
  destruct (potrf _ rows) as [l'|] eqn:Hp; simpl; [|discriminate].
  intros [= <-]. exists k, rows. auto.
Qed.

(** The only failure of the factorisation is [LinAlgError]. *)
Lemma cholesky_raises (rho : pyval F) (e : exn) :
  np_linalg_cholesky rho = Raise e -> e = LinAlgError.
Proof.
  unfold np_linalg_cholesky. destruct rho as [x|k xs|k rows]; try congruence.
  destruct (is_square rows); [|congruence].
  destruct (potrf _ rows); simpl; congruence.
Qed.

Lemma potrf_shape (n : nat) :
  forall (a l : list (list F)),
    length a = n -> potrf n a = Some l -> has_shape n n l.
Proof.
  induction n as [|k IH]; intros a l Hlen; simpl.
  - intros [= <-]. split; [reflexivity | constructor].
  - destruct (fpos _); [|discriminate].
    destruct (potrf k _) as [l22|] eqn:Hrec; simpl; [|discriminate].
    intros [= <-].
    assert (Htl : length (tail a) = k) by (rewrite length_tl; lia).
    assert (Hshape : has_shape k k l22).
    { eapply IH; [|exact Hrec].
      unfold rank1_downdate. rewrite length_zip_with, !length_map. lia. }
    destruct Hshape as [Hl22 Hrows].
    split.
    + simpl. rewrite length_zip_with, length_map. lia.
    + constructor; [simpl; rewrite length_replicate; reflexivity|].
      apply Forall_forall. intros row Hin.
      apply list_elem_of_lookup in Hin as [i Hi].
      apply lookup_zip_with_Some in Hi as (c & row' & -> & _ & Hrow').
      simpl. f_equal.
      rewrite Forall_forall in Hrows. apply Hrows.
      apply list_elem_of_lookup. exists i. exact Hrow'.
Qed.

Lemma np_random_normal_shape (n m : nat) (g : rng F) :
  has_shape n m (fst (np_random_normal n m g)).
Proof.
  unfold np_random_normal, has_shape. simpl.
  rewrite length_map, length_seq. split; [reflexivity|].
  apply Forall_forall. intros row Hin.
  apply list_elem_of_fmap in Hin as (i & -> & _).
  rewrite length_map, length_seq. reflexivity.
Qed.

Lemma scale_shape (c : F) (n m : nat) (x : list (list F)) :
  has_shape n m x -> has_shape n m (map (map (fmul c)) x).
Proof.
  intros [Hn Hrows]. split; [rewrite length_map; exact Hn|].
  apply Forall_forall. intros row Hin.
  apply list_elem_of_fmap in Hin as (row' & -> & Hin).
  rewrite length_map. rewrite Forall_forall in Hrows. apply Hrows, Hin.
Qed.

Lemma combine_rows_length (m : nat) (row : list F) (x : list (list F)) :
  Forall (fun xrow => length xrow = m) x ->
  length (foldr (zip_with fadd) (replicate m f0)
                (zip_with (fun c xrow => map (fmul c) xrow) row x)) = m.
Proof.
  intros Hx. revert row.
  induction Hx as [|xrow x Hxrow Hx IH]; intros [|c row]; simpl;
    try apply length_replicate.
  rewrite length_zip_with, length_map, IH. lia.
Qed.

Lemma np_matmul_shape (n m : nat) (l x : list (list F)) :
  has_shape n n l -> has_shape n m x ->
  exists p, np_matmul l x = Ok p /\ has_shape n m p.
Proof.
  intros [Hl Hlrows] [Hx Hxrows]. unfold np_matmul.
  assert (Hal : forallb (fun row => length row =? length x) l = true).
  { apply forallb_forall. intros row Hin. apply Nat.eqb_eq.
    rewrite Forall_forall in Hlrows. rewrite Hx.
    apply Hlrows, list_elem_of_In, Hin. }
  rewrite Hal. eexists. split; [reflexivity|].
  split; [rewrite length_map; exact Hl|].
  apply Forall_forall. intros p Hin.
  apply list_elem_of_fmap in Hin as (row & -> & Hin).
  destruct x as [|x0 x].
  - simpl. destruct row; simpl.
    + simpl in Hx. subst n. destruct l; [inversion Hin | discriminate].
    + simpl in Hx. subst n. destruct l; [inversion Hin | discriminate].
  - simpl hd. inversion Hxrows as [|? ? Hx0 Hxs]; subst.
    apply combine_rows_length. constructor; [reflexivity | assumption].
Qed.

Lemma np_diff_prepend0_length (ts : list F) :
  length (np_diff_prepend0 ts) = length ts.
Proof. unfold np_diff_prepend0. rewrite length_zip_with. simpl. lia. Qed.

(** With more than one dimension and a [numpy.matrix] of that size which
    factorises: the draws multiplied by the factor. *)
Lemma prc_generator_large (self : engine F) upper_t g sigma r n rows l :
  _method self = "GeoBrownian" -> _kwargs self !! "sigma" = Some sigma ->
  _kwargs self !! "r" = Some r -> n_dim self = Ok n -> 1 < n ->
  _kwargs self !! "rho" = Some (Py2D KMatrix rows) ->
  np_linalg_cholesky (Py2D KMatrix rows) = Ok l ->
  length rows = n ->
  let t_diff := np_diff_prepend0 (promote upper_t) in
  let x := fst (np_random_normal n (length t_diff) g) in
  prc_generator self upper_t g =
    (epsilon ← np_matmul l x;
     jit_call (s_0 self) n t_diff (np_array_of_sigma sigma) r epsilon,
     snd (np_random_normal n (length t_diff) g)).
Proof.
  intros Hm Hs Hr Hn Hlt Hrho Hchol Hdim. generator_head Hm Hs Hr Hn.
  large_dimension n. rewrite Hrho. simpl. rewrite Hchol.
  destruct (cholesky_inv _ _ Hchol) as (k & rows' & [= <- <-] & Hsq & _).
  apply is_square_shape in Hsq as [_ Hsq].
  assert (Hhd : (length rows =? length (hd [] rows)) = true).
  { destruct rows as [|row rows]; [simpl in Hdim; lia|].
    inversion Hsq; subst. simpl hd. apply Nat.eqb_eq. congruence. }
  rewrite Hhd. simpl.
  assert (Hn' : (length rows =? n) = true) by (apply Nat.eqb_eq; exact Hdim).
  rewrite Hn'. simpl. unfold star.
  destruct (np_matmul l _) as [eps|e]; simpl; [|reflexivity].
  destruct (jit_call _ _ _ _ _ _); reflexivity.
Qed.

End GeneratorProofs.

(** ** Construction, the dimension count and the output shape *)

Section EngineClaims.
Context {F : Type} `{Float64 F}.
Import SimEngine.

Lemma init_fields (method : string) (s0 : F) (kw : gmap string (pyval F))
    (self : engine F) :
  __init__ method s0 kw = Ok self ->
  _method self = "GeoBrownian" /\ _kwargs self = kw /\ _s_0 self = s0.
Proof.
  intros Hinit. apply init_inv in Hinit as (_ & _ & ->). auto.
Qed.

(** C4, as the code has it.  Construction does not look at the initial
    price: for the model [GeoBrownian] and whitelisted keys it succeeds
    whatever [s_0] is, zero and negative values included, and the engine
    holds that price. *)
Theorem construction_accepts_any_price (s0 : F) (kw : gmap string (pyval F)) :
  (forall key, is_Some (kw !! key) -> key ∈ ["sigma"; "r"; "rho"]) ->
  exists self, __init__ "GeoBrownian" s0 kw = Ok self /\ s_0 self = s0.
Proof.
  intros Hkeys. eexists. split; [apply init_ok; exact Hkeys | reflexivity].
Qed.

(** C9.  With no [sigma] among the keyword arguments, construction succeeds
    exactly when the model is [GeoBrownian] and every key is whitelisted;
    the missing key shows only afterwards, as [KeyError], when the dimension
    count is read and when the simulate call is made. *)
Theorem missing_sigma_surfaces_late (method : string) (s0 : F)
    (kw : gmap string (pyval F)) :
  kw !! "sigma" = None ->
  ((exists self, __init__ method s0 kw = Ok self) <->
   (method = "GeoBrownian" /\
    forall key, is_Some (kw !! key) -> key ∈ ["sigma"; "r"; "rho"])) /\
  (forall self, __init__ method s0 kw = Ok self ->
     n_dim self = Raise (KeyError "sigma") /\
     forall upper_t g, prc_generator self upper_t g = (Raise (KeyError "sigma"), g)).
Proof.
  intros Hsigma. split.
  - split.
    + intros [self Hinit]. apply init_inv in Hinit as (Hm & Hkeys & _). auto.
    + intros [-> Hkeys]. eexists. apply init_ok. exact Hkeys.
  - intros self Hinit. apply init_fields in Hinit as (Hm & Hkw & _).
    rewrite <- Hkw in Hsigma. split.
    + apply n_dim_no_sigma; assumption.
    + intros upper_t g. apply prc_generator_no_sigma; assumption.
Qed.

(** C2, as the code has it.  Construction does not look at [rho].  The
    dimension error is raised by the simulate call: with a list [sigma] of
    more than one volatility and a [numpy.matrix] [rho] that factorises but
    whose side is not the length of [sigma], the call fails with the
    [ValueError] of the dimension check, and the generator is as it was. *)
Theorem rho_dimension_checked_by_simulate (s0 : F) (kw : gmap string (pyval F))
    (sigma : list F) (r : pyval F) (rows : list (list F)) upper_t g :
  (forall key, is_Some (kw !! key) -> key ∈ ["sigma"; "r"; "rho"]) ->
  kw !! "sigma" = Some (PySeq KList sigma) -> kw !! "r" = Some r ->
  kw !! "rho" = Some (Py2D KMatrix rows) ->
  1 < length sigma ->
  (exists l, np_linalg_cholesky (Py2D KMatrix rows) = Ok l) ->
  length rows <> length sigma ->
  exists self,
    __init__ "GeoBrownian" s0 kw = Ok self /\
    prc_generator self upper_t g =
      (Raise (ValueError "Illegal input dimension of rho"), g).
Proof.
  intros Hkeys Hsigma Hr Hrho Hlt [l Hchol] Hdim.
  eexists. split; [apply init_ok; exact Hkeys|].
  eapply prc_generator_rho_dim with (n := length sigma); try eassumption;
    try reflexivity.
  apply (n_dim_spec _ (PySeq KList sigma)); [reflexivity | exact Hsigma].
Qed.

(** C6.  When the dimension count is 1, the array passed to the path
    evolver is the array of draws itself (it is multiplied by the integer
    1), and the call does not depend on [rho]: an engine that differs only
    in the value, or the presence, of [rho] behaves the same. *)
Theorem single_dimension_uses_raw_draws (method : string) (s0 : F)
    (kw : gmap string (pyval F)) (self : engine F) (sigma r : pyval F)
    upper_t g :
  (forall x : F, fmul f1 x = x) ->
  __init__ method s0 kw = Ok self ->
  kw !! "sigma" = Some sigma -> kw !! "r" = Some r -> n_dim self = Ok 1 ->
  let t_diff := np_diff_prepend0 (promote upper_t) in
  let draws := np_random_normal 1 (length t_diff) g in
  prc_generator self upper_t g =
    (jit_call s0 1 t_diff (np_array_of_sigma sigma) r (fst draws), snd draws) /\
  forall self' : engine F,
    _method self' = _method self -> _s_0 self' = _s_0 self ->
    (forall key, key <> "rho" -> _kwargs self' !! key = _kwargs self !! key) ->
    prc_generator self' upper_t g = prc_generator self upper_t g.
Proof.
  intros Hone Hinit Hsigma Hr Hn t_diff draws.
  apply init_fields in Hinit as (Hm & Hkw & Hs0). rewrite <- Hkw in Hsigma, Hr.
  assert (Hraw : forall x : list (list F), map (map (fmul f1)) x = x).
  { intros x. rewrite <- (map_id x) at 2. apply map_ext. intros row.
    rewrite <- (map_id row) at 2. apply map_ext. exact Hone. }
  pose proof (prc_generator_small self upper_t g sigma r 1 Hm Hsigma Hr Hn
                (le_n 1)) as Hgen.
  cbv zeta in Hgen. rewrite Hraw in Hgen. unfold s_0 in Hgen.
  rewrite Hs0 in Hgen. split; [exact Hgen|].
  intros self' Hm' Hs0' Hsame.
  assert (Hsigma' : _kwargs self' !! "sigma" = Some sigma)
    by (rewrite Hsame by discriminate; exact Hsigma).
  assert (Hr' : _kwargs self' !! "r" = Some r)
    by (rewrite Hsame by discriminate; exact Hr).
  assert (Hn' : n_dim self' = Ok 1).
  { rewrite (n_dim_spec self' sigma) by congruence.
    rewrite <- Hn. symmetry. apply n_dim_spec; assumption. }
  rewrite Hgen.
  pose proof (prc_generator_small self' upper_t g sigma r 1 (eq_trans Hm' Hm)
                Hsigma' Hr' Hn' (le_n 1)) as Hgen'.
  cbv zeta in Hgen'. rewrite Hraw in Hgen'. unfold s_0 in Hgen'.
  rewrite Hs0', Hs0 in Hgen'. exact Hgen'.
Qed.

(** The volatility parameter as the documentation of the dimension count
    reads it: a float, or a list of floats. *)
Lemma sigma_array_length (self : engine F) (sigma : pyval F) (n : nat) :
  _method self = "GeoBrownian" -> _kwargs self !! "sigma" = Some sigma ->
  (exists x, sigma = PyFloat x) \/ (exists xs, sigma = PySeq KList xs) ->
  n_dim self = Ok n ->
  exists sg, np_array_of_sigma sigma = Arr1 sg /\ length sg = n.
Proof.
  intros Hm Hs Hkind Hn. rewrite (n_dim_spec self sigma Hm Hs) in Hn.
  destruct Hkind as [[x ->]|[xs ->]]; simpl in *; injection Hn as <-;
    eexists; split; reflexivity.
Qed.

(** C8.  For a configuration on which the engine runs (a float or list
    [sigma], a float [r] and, with more than one dimension, an [n]-by-[n]
    [numpy.matrix] [rho] that factorises) and [T >= 1] evaluation times, the
    simulate call returns an array of [T] rows and [n] columns. *)
Theorem output_shape (method : string) (s0 : F) (kw : gmap string (pyval F))
    (self : engine F) (sigma : pyval F) (r : F) (n T : nat) upper_t g :
  __init__ method s0 kw = Ok self ->
  kw !! "sigma" = Some sigma ->
  (exists x, sigma = PyFloat x) \/ (exists xs, sigma = PySeq KList xs) ->
  kw !! "r" = Some (PyFloat r) ->
  n_dim self = Ok n ->
  (1 < n -> exists rows l,
      kw !! "rho" = Some (Py2D KMatrix rows) /\ length rows = n /\
      np_linalg_cholesky (Py2D KMatrix rows) = Ok l) ->
  length (promote upper_t) = T -> 1 <= T ->
  exists prc, fst (prc_generator self upper_t g) = Ok prc /\ has_shape T n prc.
Proof.
  intros Hinit Hsigma Hkind Hr Hn Hrho HT _.
  apply init_fields in Hinit as (Hm & Hkw & Hs0).
  rewrite <- Hkw in Hsigma, Hr, Hrho. clear Hkw.
  destruct (sigma_array_length self sigma n Hm Hsigma Hkind Hn)
    as (sg & Hsg & Hlen).
  assert (Hdiff : length (np_diff_prepend0 (promote upper_t)) = T)
    by (rewrite np_diff_prepend0_length; exact HT).
  pose proof (np_random_normal_shape n T g) as Hdraws.
  destruct (le_lt_dec n 1) as [Hle|Hlt].
  - pose proof (prc_generator_small self upper_t g sigma (PyFloat r) n
                  Hm Hsigma Hr Hn Hle) as Hgen.
    cbv zeta in Hgen. rewrite Hgen, Hsg, Hdiff. cbn [fst]. unfold jit_call.
    destruct (fast_sim_loop_spec (s_0 self) r n T
                (np_diff_prepend0 (promote upper_t)) sg
                (map (map (fmul f1)) (fst (np_random_normal n T g))))
      as (prc & Hprc & Hshape & _); auto using scale_shape.
    exists prc. auto.
  - destruct (Hrho Hlt) as (rows & l & Hrows & Hside & Hchol).
    pose proof (prc_generator_large self upper_t g sigma (PyFloat r) n rows l
                  Hm Hsigma Hr Hn Hlt Hrows Hchol Hside) as Hgen.
    cbv zeta in Hgen. rewrite Hgen, Hsg, Hdiff. cbn [fst].
    destruct (cholesky_inv _ _ Hchol) as (k & rows' & [= <- <-] & _ & Hpotrf).
    apply potrf_shape in Hpotrf; [|reflexivity]. rewrite Hside in Hpotrf.
    destruct (np_matmul_shape n T l _ Hpotrf Hdraws) as (eps & Heps & Hshape).
    rewrite Heps. simpl. unfold jit_call.
    destruct (fast_sim_loop_spec (s_0 self) r n T
                (np_diff_prepend0 (promote upper_t)) sg eps)
      as (prc & Hprc & Hshape' & _); auto.
    exists prc. auto.
Qed.

End EngineClaims.

(** ** The correlation matrix in the simulate call *)

Section CorrelationClaims.
Context {F : Type} `{Float64 F}.
Import SimEngine.



(** C10.  With more than one dimension, a correlation that is not held in
    a [numpy.matrix] (a plain 2-D [numpy.ndarray], say) and on which the
    factorisation succeeds is refused by the type check of the simulate
    call, whatever its size; and the factorisation runs before the type
    and the dimension checks: when it fails, the call fails with its
    [LinAlgError], whatever the type and the size of [rho]. *)
Theorem rho_must_be_numpy_matrix (method : string) (s0 : F)
    (kw : gmap string (pyval F)) (self : engine F) (sigma r rho : pyval F)
    (n : nat) upper_t g :
  __init__ method s0 kw = Ok self ->
  kw !! "sigma" = Some sigma -> kw !! "r" = Some r ->
  n_dim self = Ok n -> 1 < n ->
  kw !! "rho" = Some rho ->
  (forall k a l,
     rho = Py2D k a -> k <> KMatrix -> np_linalg_cholesky rho = Ok l ->
     prc_generator self upper_t g =
       (Raise (ValueError "Illegal input type of rho"), g)) /\
  (forall e, np_linalg_cholesky rho = Raise e ->
     e = LinAlgError /\ prc_generator self upper_t g = (Raise LinAlgError, g)).
Proof.
  intros Hinit Hsigma Hr Hn Hlt Hrho.
  apply init_fields in Hinit as (Hm & Hkw & _).
  rewrite <- Hkw in Hsigma, Hr, Hrho. split.
  - intros k a l -> Hk Hl.
    eapply prc_generator_rho_type; try eassumption.
    intros rows [= -> _]. apply Hk. reflexivity.
  - intros e He. pose proof (cholesky_raises _ _ He) as ->.
    split; [reflexivity|].
    eapply prc_generator_cholesky_fails; eassumption.
Qed.
End CorrelationClaims.

(** ** Real arithmetic: the factorisation and positive definiteness *)

Section RealCholesky.
Local Open Scope R_scope.

Lemma fpos_R (x : R) : fpos x = true <-> 0 < x.
Proof.
  simpl. destruct (Rlt_dec 0 x); split; auto; discriminate.
Qed.

Lemma dot_cons (a x : R) (u xs : list R) :
  dot (a :: u) (x :: xs) = a * x + dot u xs.
Proof. reflexivity. Qed.

Lemma dot_nil_r (u : list R) : dot u [] = 0.
Proof. destruct u; reflexivity. Qed.

Lemma dot_comm (u v : list R) : dot u v = dot v u.
Proof.
  revert v. induction u as [|a u IH]; intros [|b v]; try reflexivity.
  rewrite !dot_cons, IH. ring.
Qed.

Lemma dot_zeros (u : list R) (n : nat) : dot u (replicate n 0) = 0.
Proof.
  revert n. induction u as [|a u IH]; intros [|n]; try reflexivity.
  simpl replicate. rewrite dot_cons, IH. ring.
Qed.

Lemma dot_scaled (c : R) (v xs : list R) :
  dot (map (fun vi => vi / c) v) xs = dot v xs / c.
Proof.
  revert xs. induction v as [|a v IH]; intros [|x xs]; simpl map;
    rewrite ?dot_nil_r; try (unfold dot; simpl; unfold Rdiv; ring).
  rewrite !dot_cons, IH. unfold Rdiv. ring.
Qed.

Lemma dot_downdate (c : R) (row w ys : list R) :
  length row = length w ->
  dot (zip_with (fun b wj => b - c * wj) row w) ys = dot row ys - c * dot w ys.
Proof.
  revert w ys. induction row as [|b row IH]; intros [|wj w] ys Hlen;
    try discriminate.
  - unfold dot. simpl. ring.
  - destruct ys as [|y ys]; simpl zip_with.
    + rewrite !dot_nil_r. ring.
    + rewrite !dot_cons, IH by (simpl in Hlen; lia). ring.
Qed.

Lemma qform_zeros (a : list (list R)) (n : nat) : qform a (replicate n 0) = 0.
Proof. unfold qform. rewrite dot_comm. apply dot_zeros. Qed.

(** The contribution of the first column and of the trailing columns. *)
Lemma dot_rows_cons (x : R) (xs ys : list R) (rest : list (list R)) :
  Forall (fun row => row <> []) rest ->
  dot ys (map (fun row => dot row (x :: xs)) rest) =
    x * dot ys (map (hd 0) rest) + dot ys (map (fun row => dot (tail row) xs) rest).
Proof.
  intros Hrest. revert ys.
  induction Hrest as [|row rest Hrow Hrest IH]; intros ys.
  - simpl. rewrite !dot_nil_r. ring.
  - destruct ys as [|y ys]; [unfold dot; simpl; ring|].
    destruct row as [|h t]; [contradiction|].
    simpl map. rewrite !dot_cons, IH. simpl. ring.
Qed.

Lemma qform_step (a11 x : R) (u xs : list R) (rest : list (list R)) :
  Forall (fun row => row <> []) rest ->
  qform ((a11 :: u) :: rest) (x :: xs) =
    a11 * x * x + x * dot u xs + x * dot xs (map (hd 0) rest)
    + qform (map tail rest) xs.
Proof.
  intros Hrest. unfold qform. simpl map.
  rewrite !dot_cons, dot_rows_cons by exact Hrest.
  rewrite map_map. ring.
Qed.

Lemma dot_rows_downdate (w ys : list R) (b : list (list R)) :
  Forall (fun row => length row = length w) b ->
  forall (w' xs : list R),
    length b = length w' ->
    dot xs (map (fun row => dot row ys)
                (zip_with (fun row vi =>
                             zip_with (fun bij vj => bij - vi * vj) row w) b w')) =
      dot xs (map (fun row => dot row ys) b) - dot xs w' * dot w ys.
Proof.
  induction 1 as [|row b Hrow Hb IH]; intros [|vi w'] xs Hlen;
    try discriminate.
  - simpl. rewrite !dot_nil_r. ring.
  - destruct xs as [|x xs]; [unfold dot; simpl; ring|].
    simpl zip_with. simpl map.
    rewrite !dot_cons, IH by (simpl in Hlen; lia).
    rewrite dot_downdate by exact Hrow. ring.
Qed.

Lemma qform_downdate (k : nat) (b : list (list R)) (w xs : list R) :
  has_shape k k b -> length w = k ->
  qform (rank1_downdate b w) xs = qform b xs - dot w xs * dot w xs.
Proof.
  intros [Hb Hrows] Hw. unfold qform, rank1_downdate.
  rewrite dot_rows_downdate.
  - rewrite (dot_comm xs w). reflexivity.
  - rewrite Hw. exact Hrows.
  - congruence.
Qed.

(** A square array of side [S k]: first row, and the remaining rows. *)
Lemma square_inv (k : nat) (a : list (list R)) :
  has_shape (S k) (S k) a ->
  exists a11 u rest,
    a = (a11 :: u) :: rest /\ length u = k /\ length rest = k /\
    Forall (fun row => length row = S k) rest.
Proof.
  intros [Hlen Hrows]. destruct a as [|[|a11 u] rest]; try discriminate.
  - inversion Hrows; discriminate.
  - inversion Hrows as [|? ? Hrow Hrest]; subst.
    exists a11, u, rest. simpl in *. repeat split; auto; lia.
Qed.

Lemma rows_nonempty (k : nat) (rest : list (list R)) :
  Forall (fun row => length row = S k) rest ->
  Forall (fun row => row <> []) rest.
Proof.
  intros Hrows. eapply Forall_impl; [exact Hrows|].
  intros [|h t]; [discriminate | intros _; discriminate].
Qed.

Lemma trailing_shape (k : nat) (rest : list (list R)) :
  length rest = k -> Forall (fun row => length row = S k) rest ->
  has_shape k k (map tail rest).
Proof.
  intros Hlen Hrows. split; [rewrite length_map; exact Hlen|].
  apply Forall_forall. intros row Hin.
  apply list_elem_of_fmap in Hin as (row' & -> & Hin).
  rewrite Forall_forall in Hrows. rewrite length_tl, (Hrows _ Hin). lia.
Qed.

Lemma downdate_shape (k : nat) (b : list (list R)) (w : list R) :
  has_shape k k b -> length w = k -> has_shape k k (rank1_downdate b w).
Proof.
  intros [Hb Hrows] Hw. unfold rank1_downdate. split.
  - rewrite length_zip_with. lia.
  - apply Forall_forall. intros row Hin.
    apply list_elem_of_lookup in Hin as [i Hi].
    apply lookup_zip_with_Some in Hi as (row' & vi & -> & Hrow' & _).
    rewrite length_zip_with, Hw.
    rewrite Forall_forall in Hrows.
    rewrite (Hrows row') by (apply list_elem_of_lookup; eauto). lia.
Qed.

Lemma first_column_symmetric (k : nat) (a11 : R) (u : list R)
    (rest : list (list R)) :
  Forall (fun row => length row = S k) rest ->
  symmetric ((a11 :: u) :: rest) -> u = map (hd 0) rest.
Proof.
  intros Hrows Hsym. apply list_eq. intros i.
  specialize (Hsym 0%nat (S i)). unfold entry in Hsym. simpl in Hsym.
  rewrite Hsym, list_lookup_fmap.
  destruct (rest !! i) as [row|] eqn:Hrow; [|reflexivity]. simpl.
  rewrite Forall_forall in Hrows.
  assert (Hlen : length row = S k)
    by (apply Hrows, list_elem_of_lookup; eauto).
  destruct row; [discriminate | reflexivity].
Qed.

Lemma trailing_symmetric (r0 : list R) (rest : list (list R)) :
  symmetric (r0 :: rest) -> symmetric (map tail rest).
Proof.
  intros Hsym i j. specialize (Hsym (S i) (S j)). unfold entry in *.
  simpl in Hsym. rewrite !list_lookup_fmap.
  destruct (rest !! i) as [ri|], (rest !! j) as [rj|]; simpl in *;
    rewrite ?lookup_tail; exact Hsym.
Qed.

Lemma downdate_symmetric (b : list (list R)) (w : list R) :
  length b = length w -> symmetric b -> symmetric (rank1_downdate b w).
Proof.
  intros Hlen Hsym i j. specialize (Hsym i j). unfold entry, rank1_downdate in *.
  rewrite !lookup_zip_with.
  destruct (b !! i) as [ri|] eqn:Hbi, (b !! j) as [rj|] eqn:Hbj; simpl in *.
  - destruct (w !! i) as [wi|] eqn:Hwi, (w !! j) as [wj|] eqn:Hwj; simpl;
      rewrite ?lookup_zip_with, ?Hwi, ?Hwj; simpl; try reflexivity.
    + rewrite Hsym. destruct (rj !! i); simpl; [|reflexivity].
      f_equal. ring.
    + destruct (ri !! j); reflexivity.
    + destruct (rj !! i); reflexivity.
  - apply lookup_ge_None in Hbj. rewrite Hlen in Hbj.
    apply lookup_ge_None in Hbj.
    destruct (w !! i); simpl; [|reflexivity].
    rewrite lookup_zip_with, Hbj. destruct (ri !! j); reflexivity.
  - apply lookup_ge_None in Hbi. rewrite Hlen in Hbi.
    apply lookup_ge_None in Hbi.
    destruct (w !! j); simpl; [|reflexivity].
    rewrite lookup_zip_with, Hbi. destruct (rj !! i); reflexivity.
  - reflexivity.
Qed.

(** One step of the factorisation completes the square. *)
Lemma qform_complete_square (k : nat) (a11 x : R) (xs : list R)
    (rest : list (list R)) :
  0 < a11 -> length rest = k ->
  Forall (fun row => length row = S k) rest ->
  let l11 := sqrt a11 in
  let v := map (hd 0) rest in
  let w := map (fun row => hd 0 row / l11) rest in
  qform ((a11 :: v) :: rest) (x :: xs) =
    (l11 * x + dot w xs) * (l11 * x + dot w xs)
    + qform (rank1_downdate (map tail rest) w) xs.
Proof.
  intros Hpos Hlen Hrows l11 v w.
  assert (Hl : l11 * l11 = a11) by (apply sqrt_sqrt; lra).
  assert (Hl0 : 0 < l11) by (apply sqrt_lt_R0; exact Hpos).
  assert (Hw : dot w xs = dot v xs / l11).
  { unfold w, v. rewrite <- dot_scaled, map_map. reflexivity. }
  rewrite qform_step by (eapply rows_nonempty; exact Hrows).
  rewrite (qform_downdate k)
    by (auto using trailing_shape; unfold w; rewrite length_map; exact Hlen).
  rewrite Hw. fold v. rewrite (dot_comm xs v), <- Hl. field. lra.
Qed.

(** The factorisation of a symmetric matrix runs to the end exactly when the
    matrix is positive definite. *)
Lemma potrf_positive_definite (n : nat) :
  forall a : list (list R),
    has_shape n n a -> symmetric a ->
    (exists l, potrf n a = Some l) <-> positive_definite n a.
Proof.
  induction n as [|k IH]; intros a Hshape Hsym.
  - split.
    + intros _ [|x xs] Hx Hne; [exfalso; apply Hne; reflexivity|].
      simpl in Hx. discriminate Hx.
    + intros _. exists []. reflexivity.
  - destruct (square_inv k a Hshape) as (a11 & u & rest & -> & Hu & Hrest & Hrows).
    pose proof (first_column_symmetric k a11 u rest Hrows Hsym) as ->.
    pose (w := map (fun row => hd 0 row / sqrt a11) rest).
    assert (Hw : length w = k) by (unfold w; rewrite length_map; exact Hrest).
    pose (b := rank1_downdate (map tail rest) w).
    assert (Hb : has_shape k k b)
      by (apply downdate_shape; auto using trailing_shape).
    assert (Hbsym : symmetric b).
    { apply downdate_symmetric; [rewrite length_map; congruence|].
      eapply trailing_symmetric; exact Hsym. }
    specialize (IH b Hb Hbsym).
    assert (Hstep : potrf (S k) ((a11 :: map (hd 0) rest) :: rest) =
                    if fpos a11 then
                      l22 ← potrf k b;
                      Some ((sqrt a11 :: replicate k 0) :: zip_with cons w l22)
                    else None) by reflexivity.
    rewrite Hstep. clear Hstep. split.
    + intros [l Hl]. destruct (fpos a11) eqn:Hpos; [|discriminate].
      apply fpos_R in Hpos.
      destruct (potrf k b) as [l22|] eqn:Hl22; [|discriminate].
      assert (Hpd : positive_definite k b) by (apply IH; eauto).
      intros [|x xs] Hx Hne; [simpl in Hx; discriminate Hx|].
      injection Hx as Hx.
      rewrite (qform_complete_square k) by assumption. fold w b.
      pose proof (Rle_0_sqr (sqrt a11 * x + dot w xs)) as Hsq.
      unfold Rsqr in Hsq.
      destruct (@list_eq_dec R Req_EM_T xs (replicate k 0)) as [->|Hxs].
      * rewrite qform_zeros, dot_zeros.
        assert (Hx0 : x <> 0) by (intros ->; apply Hne; reflexivity).
        assert (Hl0 : 0 < sqrt a11) by (apply sqrt_lt_R0; exact Hpos).
        assert (0 < (sqrt a11 * x) * (sqrt a11 * x))
          by (apply Rsqr_pos_lt; nra).
        nra.
      * specialize (Hpd xs Hx Hxs). lra.
    + intros Hpd.
      assert (Hpos : 0 < a11).
      { specialize (Hpd (1 :: replicate k 0)).
        rewrite qform_step, qform_zeros, dot_zeros, dot_comm, dot_zeros in Hpd
          by (eapply rows_nonempty; exact Hrows).
        replace (a11 * 1 * 1 + 1 * 0 + 1 * 0 + 0) with a11 in Hpd by ring.
        apply Hpd; [simpl; rewrite length_replicate; reflexivity|].
        simpl. intros [= Hone]. lra. }
      apply fpos_R in Hpos as Hfpos. rewrite Hfpos.
      assert (Hl0 : 0 < sqrt a11) by (apply sqrt_lt_R0; exact Hpos).
      destruct IH as [_ IH]. destruct IH as [l22 Hl22].
      * intros xs Hxs Hne.
        specialize (Hpd ((- dot w xs / sqrt a11) :: xs)).
        rewrite (qform_complete_square k) in Hpd by assumption.
        fold w b in Hpd.
        replace (sqrt a11 * (- dot w xs / sqrt a11) + dot w xs) with 0 in Hpd
          by (field; lra).
        rewrite Rmult_0_l, Rplus_0_l in Hpd. apply Hpd.
        -- simpl. congruence.
        -- simpl. intros [= _ Heq]. exact (Hne Heq).
      * rewrite Hl22. eexists. reflexivity.
Qed.

Lemma positive_definite_nonneg (n : nat) (a : list (list R)) (x : list R) :
  positive_definite n a -> length x = n -> 0 <= qform a x.
Proof.
  intros Hpd Hx.
  destruct (@list_eq_dec R Req_EM_T x (replicate n 0)) as [->|Hne].
  - rewrite qform_zeros. lra.
  - left. apply Hpd; assumption.
Qed.

End RealCholesky.

(** ** Real arithmetic: which matrices factorise

    In exact arithmetic the factorisation succeeds on the symmetric positive
    definite matrices and on no other symmetric matrix. *)

Section RealEngineClaims.
Import SimEngine.
Local Open Scope R_scope.

(** A symmetric matrix with a negative value of its quadratic form does not
    factorise. *)
Lemma cholesky_not_psd (k : mat_kind) (a : list (list R)) (x : list R) :
  symmetric a -> length x = length a -> qform a x < 0 ->
  np_linalg_cholesky (Py2D k a) = Raise LinAlgError.
Proof.
  intros Hsym Hx Hneg. unfold np_linalg_cholesky.
  destruct (is_square a) eqn:Hsq; [|reflexivity].
  destruct (potrf (length a) a) as [l|] eqn:Hl; [|reflexivity].
  apply is_square_shape in Hsq.
  assert (Hpd : positive_definite (length a) a)
    by (apply potrf_positive_definite; eauto).
  pose proof (positive_definite_nonneg _ a x Hpd Hx). lra.
Qed.

(** A symmetric positive-definite matrix factorises, whatever the type of
    the object that holds it. *)
Lemma cholesky_positive_definite (k : mat_kind) (n : nat) (a : list (list R)) :
  has_shape n n a -> symmetric a -> positive_definite n a ->
  exists l, np_linalg_cholesky (Py2D k a) = Ok l.
Proof.
  intros Hshape Hsym Hpd. unfold np_linalg_cholesky.
  assert (Hlen : length a = n) by (destruct Hshape; assumption).
  rewrite (proj2 (is_square_shape a)) by (rewrite Hlen; exact Hshape).
  destruct (proj2 (potrf_positive_definite n a Hshape Hsym) Hpd) as [l Hl].
  rewrite Hlen, Hl. exists l. reflexivity.
Qed.

End RealEngineClaims.

(** ** Real arithmetic: paths without shocks

    In exact arithmetic the product of the drift factors is the closed form
    [s_0 * exp((r - sigma^2/2) * (elapsed time))]. *)

Section RealDrift.
Local Open Scope R_scope.

Lemma sum_snoc (l : list R) (x : R) :
  foldr Rplus 0 (l ++ [x]) = foldr Rplus 0 l + x.
Proof. induction l as [|y l IH]; simpl; [ring | rewrite IH; ring]. Qed.

Lemma elapsed_0 (t_diff : list R) (dt : R) :
  t_diff !! 0%nat = Some dt -> elapsed t_diff 0 = dt.
Proof. destruct t_diff; intros [= ->]. unfold elapsed. simpl. ring. Qed.

Lemma elapsed_S (t_diff : list R) (t : nat) (dt : R) :
  t_diff !! S t = Some dt -> elapsed t_diff (S t) = elapsed t_diff t + dt.
Proof.
  intros Hdt. unfold elapsed.
  rewrite (take_S_r t_diff (S t) dt Hdt). apply sum_snoc.
Qed.

(** Without a shock the growth factor is the drift alone. *)
Lemma growth_zero_shock (r sg dt : R) :
  growth r sg dt 0 = exp ((r - sg ^ 2 / 2) * dt).
Proof. unfold growth. simpl. f_equal. field. Qed.

Lemma zero_entry (n T : nat) (epsilon : list (list R)) (j t : nat) :
  has_shape n T epsilon -> Forall (Forall (fun e => e = 0)) epsilon ->
  (j < n)%nat -> (t < T)%nat -> entry epsilon j t = Some 0.
Proof.
  intros [Hn Hrows] Hzero Hj Ht. unfold entry.
  destruct (lookup_lt_is_Some_2 epsilon j) as [row Hrow]; [lia|].
  rewrite Hrow. simpl.
  rewrite Forall_forall in Hrows, Hzero.
  assert (Hin : row ∈ epsilon) by (apply list_elem_of_lookup; eauto).
  destruct (lookup_lt_is_Some_2 row t) as [e He]; [rewrite (Hrows _ Hin); lia|].
  rewrite He. f_equal.
  pose proof (Hzero _ Hin) as Hrow0. rewrite Forall_forall in Hrow0.
  apply Hrow0, list_elem_of_lookup. eauto.
Qed.

Lemma zero_shock_path (s_0 r : R) (n T : nat) (t_diff sigma : list R)
    (epsilon : list (list R)) :
  length t_diff = T -> length sigma = n -> has_shape n T epsilon ->
  Forall (Forall (fun e => e = 0)) epsilon ->
  exists prc,
    _fast_sim_loop_geo_brownian s_0 n t_diff sigma r epsilon = Ok prc /\
    has_shape T n prc /\
    forall t j sg,
      (t < T)%nat -> sigma !! j = Some sg ->
      entry prc t j = Some (s_0 * exp ((r - sg ^ 2 / 2) * elapsed t_diff t)).
Proof.
  intros HT Hsigma Heps Hzero.
  destruct (fast_sim_loop_spec s_0 r n T t_diff sigma epsilon HT Hsigma Heps)
    as (prc & Hprc & Hshape & Hrec).
  exists prc. split; [exact Hprc|]. split; [exact Hshape|].
  intros t j sg Ht Hsg.
  assert (Hj : (j < n)%nat) by (rewrite <- Hsigma; eapply lookup_lt_Some; eauto).
  induction t as [|t IH].
  - destruct (lookup_lt_is_Some_2 t_diff 0) as [dt Hdt]; [lia|].
    destruct (Hrec 0%nat j dt sg 0 Hdt Hsg) as (prev & Hprev & Hent).
    { eapply zero_entry; eauto. }
    simpl in Hprev. injection Hprev as <-.
    rewrite Hent, growth_zero_shock, (elapsed_0 _ dt Hdt). reflexivity.
  - destruct (lookup_lt_is_Some_2 t_diff (S t)) as [dt Hdt]; [lia|].
    destruct (Hrec (S t) j dt sg 0 Hdt Hsg) as (prev & Hprev & Hent).
    { eapply zero_entry; eauto. }
    cbn [previous] in Hprev. rewrite IH in Hprev by lia. injection Hprev as <-.
    rewrite Hent, growth_zero_shock, (elapsed_S _ _ dt Hdt).
    rewrite Rmult_plus_distr_l, exp_plus. f_equal.
    change (@fmul R R_exact) with Rmult. simpl (sg ^ 2). ring.
Qed.

End RealDrift.

(** ** Paths without shocks *)

Section DriftProofs.
Context {F : Type} `{Float64 F}.






End DriftProofs.

(** ** Binary64: zeros, finite numbers and paths without shocks *)

Section Binary64Facts.
Local Open Scope float_scope.










End Binary64Facts.

(** ** The sample configurations: facts *)

Section Samples.
Import SimEngine.
Local Open Scope R_scope.

Lemma configuration_keys (sigma rho : pyval R) :
  forall key, is_Some (configuration sigma rho !! key) ->
              key ∈ ["sigma"; "r"; "rho"].
Proof.
  intros key Hkey. unfold configuration in Hkey.
  apply lookup_insert_is_Some in Hkey as [<-|[_ Hkey]]; [set_solver|].
  apply lookup_insert_is_Some in Hkey as [<-|[_ Hkey]]; [set_solver|].
  apply lookup_insert_is_Some in Hkey as [<-|[_ Hkey]]; [set_solver|].
  rewrite lookup_empty in Hkey. destruct Hkey as [v Hv]. discriminate.
Qed.

Lemma no_sigma_keys :
  forall key, is_Some (no_sigma_kwargs !! key) -> key ∈ ["sigma"; "r"; "rho"].
Proof.
  intros key Hkey. unfold no_sigma_kwargs in Hkey.
  apply lookup_insert_is_Some in Hkey as [<-|[_ Hkey]]; [set_solver|].
  rewrite lookup_empty in Hkey. destruct Hkey as [v Hv]. discriminate.
Qed.

Lemma init_sample (s0 : R) (sigma rho : pyval R) :
  __init__ "GeoBrownian" s0 (configuration sigma rho) =
    Ok {| _method := "GeoBrownian"; _kwargs := configuration sigma rho;
          _s_0 := s0;
          _n_dim := None |}.
Proof. apply init_ok, configuration_keys. Qed.

Ltac positive_pivot :=
  match goal with
  | |- context [Rlt_dec 0 ?p] =>
      let Hn := fresh "Hn" in
      destruct (Rlt_dec 0 p) as [_|Hn];
      [|exfalso; apply Hn; rewrite ?sqrt_1; nra]
  end.

Lemma sample_rho_factorises (k : mat_kind) :
  exists l, np_linalg_cholesky (Py2D k sample_rho) = Ok l.
Proof.
  unfold np_linalg_cholesky. simpl. do 2 positive_pivot.
  eexists. reflexivity.
Qed.

Lemma identity3_factorises (k : mat_kind) :
  exists l, np_linalg_cholesky (Py2D k identity3) = Ok l.
Proof.
  unfold np_linalg_cholesky. simpl. do 3 positive_pivot.
  eexists. reflexivity.
Qed.

Lemma indefinite_rho_symmetric : symmetric indefinite_rho.
Proof. intros [|[|i]] [|[|j]]; try reflexivity; destruct i, j; reflexivity. Qed.

Lemma indefinite_rho_negative : qform indefinite_rho [1; -1] < 0.
Proof. unfold qform, dot. simpl. lra. Qed.

End Samples.

(** ** The engine on the sample configurations *)

Section Instances.
Import SimEngine.
Local Open Scope R_scope.

(** C3, at the input where the code departs from it.  For the tuple
    [sigma = (0.2, 0.2)] the engine is constructed, [np.array] makes an array
    of the two volatilities, but the dimension count is 1: [n_dim] tests
    [isinstance(sigma, list)], where [prc_generator] tests
    [isinstance(sigma_raw, Iterable)]. *)
Theorem n_dim_of_tuple_sigma :
  __init__ "GeoBrownian" 100 tuple_sigma_kwargs =
    Ok (sample_engine tuple_sigma_kwargs) /\
  tuple_sigma_kwargs !! "sigma" = Some (PySeq KTuple sample_sigma) /\
  length sample_sigma = 2%nat /\
  np_array_of_sigma (PySeq KTuple sample_sigma) = Arr1 sample_sigma /\
  n_dim (sample_engine tuple_sigma_kwargs) = Ok 1%nat.
Proof.
  split; [apply init_sample|]. repeat split.
Qed.

Lemma path_evolver_recurrence_witness :
  length [1; 1 / 2] = 2%nat /\ length sample_sigma = 2%nat /\
  has_shape 2 2 [[0; 1]; [1; 0]] /\
  exists prc,
    _fast_sim_loop_geo_brownian 100 2 [1; 1 / 2] sample_sigma (3 / 100)
      [[0; 1]; [1; 0]] = Ok prc /\
    has_shape 2 2 prc /\
    forall t j dt sg e,
      [1; 1 / 2] !! t = Some dt -> sample_sigma !! j = Some sg ->
      entry [[0; 1]; [1; 0]] j t = Some e ->
      exists prev,
        previous 100 prc t j = Some prev /\
        entry prc t j = Some (fmul prev (growth (3 / 100) sg dt e)).
Proof.
  assert (Hshape : has_shape 2 2 [[0; 1]; [1; 0]])
    by (split; [reflexivity | repeat constructor]).
  split; [reflexivity|]. split; [reflexivity|]. split; [exact Hshape|].
  apply (path_evolver_recurrence (F := R) 100 (3 / 100) 2 2 [1; 1 / 2]
           sample_sigma [[0; 1]; [1; 0]] eq_refl eq_refl Hshape).
Defined.

(** Against C2 as stated: the two-asset configuration with a 3-by-3 [rho]
    is constructed. *)
Lemma oversized_rho_is_constructed :
  length sample_sigma = 2%nat /\ has_shape 3 3 identity3 /\
  __init__ "GeoBrownian" 100 oversized_rho_kwargs =
    Ok (sample_engine oversized_rho_kwargs).
Proof.
  split; [reflexivity|].
  split; [split; [reflexivity | repeat constructor]|].
  apply init_sample.
Qed.

Lemma rho_dimension_checked_by_simulate_witness :
  (forall key, is_Some (oversized_rho_kwargs !! key) ->
               key ∈ ["sigma"; "r"; "rho"]) /\
  oversized_rho_kwargs !! "sigma" = Some (PySeq KList sample_sigma) /\
  oversized_rho_kwargs !! "r" = Some (PyFloat (3 / 100)) /\
  oversized_rho_kwargs !! "rho" = Some (Py2D KMatrix identity3) /\
  (1 < length sample_sigma)%nat /\
  (exists l, np_linalg_cholesky (Py2D KMatrix identity3) = Ok l) /\
  length identity3 <> length sample_sigma /\
  exists self,
    __init__ "GeoBrownian" 100 oversized_rho_kwargs = Ok self /\
    prc_generator self (TSeq [1; 2]) sample_rng =
      (Raise (ValueError "Illegal input dimension of rho"), sample_rng).
Proof.
  assert (Hkeys := configuration_keys (PySeq KList sample_sigma)
                     (Py2D KMatrix identity3)).
  assert (Hlt : (1 < length sample_sigma)%nat) by (simpl; lia).
  assert (Hchol := identity3_factorises KMatrix).
  assert (Hdim : length identity3 <> length sample_sigma) by (simpl; lia).
  repeat (split; [first [exact Hkeys | exact Hlt | exact Hchol | exact Hdim
                        | reflexivity]|]).
  apply (rho_dimension_checked_by_simulate (F := R) 100 oversized_rho_kwargs
           sample_sigma (PyFloat (3 / 100)) identity3 (TSeq [1; 2]) sample_rng
           Hkeys eq_refl eq_refl eq_refl Hlt Hchol Hdim).
Defined.

(** Against C4 as stated: a zero and a negative initial price are accepted. *)
Lemma nonpositive_price_is_constructed :
  __init__ "GeoBrownian" 0 sample_kwargs =
    Ok {| _method := "GeoBrownian"; _kwargs := sample_kwargs; _s_0 := 0;
          _n_dim := None |} /\
  __init__ "GeoBrownian" (-100) sample_kwargs =
    Ok {| _method := "GeoBrownian"; _kwargs := sample_kwargs; _s_0 := -100;
          _n_dim := None |}.
Proof. split; apply init_sample. Qed.

Lemma construction_accepts_any_price_witness :
  (forall key, is_Some (sample_kwargs !! key) -> key ∈ ["sigma"; "r"; "rho"]) /\
  exists self,
    __init__ "GeoBrownian" (-100) sample_kwargs = Ok self /\ s_0 self = -100.
Proof.
  assert (Hkeys := configuration_keys (PySeq KList sample_sigma)
                     (Py2D KMatrix sample_rho)).
  split; [exact Hkeys|].
  apply (construction_accepts_any_price (F := R) (-100) sample_kwargs Hkeys).
Defined.

Lemma single_dimension_uses_raw_draws_witness :
  (forall x : R, fmul f1 x = x) /\
  __init__ "GeoBrownian" 100 scalar_sigma_kwargs =
    Ok (sample_engine scalar_sigma_kwargs) /\
  scalar_sigma_kwargs !! "sigma" = Some (PyFloat (2 / 5)) /\
  scalar_sigma_kwargs !! "r" = Some (PyFloat (3 / 100)) /\
  n_dim (sample_engine scalar_sigma_kwargs) = Ok 1%nat /\
  let t_diff := np_diff_prepend0 (promote (TSeq [1; 2])) in
  let draws := np_random_normal 1 (length t_diff) sample_rng in
  prc_generator (sample_engine scalar_sigma_kwargs) (TSeq [1; 2]) sample_rng =
    (jit_call 100 1 t_diff (np_array_of_sigma (PyFloat (2 / 5)))
       (PyFloat (3 / 100)) (fst draws), snd draws) /\
  forall self' : engine R,
    _method self' = _method (sample_engine scalar_sigma_kwargs) ->
    _s_0 self' = _s_0 (sample_engine scalar_sigma_kwargs) ->
    (forall key, key <> "rho" ->
       _kwargs self' !! key =
       _kwargs (sample_engine scalar_sigma_kwargs) !! key) ->
    prc_generator self' (TSeq [1; 2]) sample_rng =
    prc_generator (sample_engine scalar_sigma_kwargs) (TSeq [1; 2]) sample_rng.
Proof.
  assert (Hinit := init_sample 100 (PyFloat (2 / 5)) (Py2D KMatrix sample_rho)).
  assert (Hone : forall x : R, fmul f1 x = x) by exact Rmult_1_l.
  split; [exact Hone|]. split; [exact Hinit|].
  split; [reflexivity|]. split; [reflexivity|]. split; [reflexivity|].
  apply (single_dimension_uses_raw_draws (F := R) "GeoBrownian" 100
           scalar_sigma_kwargs (sample_engine scalar_sigma_kwargs)
           (PyFloat (2 / 5)) (PyFloat (3 / 100)) (TSeq [1; 2]) sample_rng
           Hone Hinit eq_refl eq_refl eq_refl).
Defined.

Lemma missing_sigma_surfaces_late_witness :
  no_sigma_kwargs !! "sigma" = None /\
  (exists self, __init__ "GeoBrownian" 100 no_sigma_kwargs = Ok self) /\
  n_dim (sample_engine no_sigma_kwargs) = Raise (KeyError "sigma") /\
  prc_generator (sample_engine no_sigma_kwargs) (TFloat 1) sample_rng =
    (Raise (KeyError "sigma"), sample_rng).
Proof.
  destruct (missing_sigma_surfaces_late (F := R) "GeoBrownian" 100
              no_sigma_kwargs eq_refl) as [Hiff Hlate].
  assert (Hinit : __init__ "GeoBrownian" 100 no_sigma_kwargs =
                  Ok (sample_engine no_sigma_kwargs))
    by (apply init_ok, no_sigma_keys).
  destruct (Hlate _ Hinit) as [Hn Hgen].
  split; [reflexivity|].
  split; [apply Hiff; split; [reflexivity | exact no_sigma_keys]|].
  split; [exact Hn | apply Hgen].
Defined.

End Instances.

(** ** The binary64 sample configurations: facts *)

Section Binary64Samples.
Import SimEngine.
Local Open Scope R_scope.

Lemma real_of_1 : real_of 1 = 1.
Proof.
  unfold real_of.
  change (Prim2SF 1) with (S754_finite false 4503599627370496 (-52)).
  cbv beta iota zeta.
  change (2 ^ 52)%positive with 4503599627370496%positive. lra.
Qed.

Lemma real_of_half : real_of 0.5 = 1 / 2.
Proof.
  unfold real_of.
  change (Prim2SF 0.5) with (S754_finite false 4503599627370496 (-53)).
  cbv beta iota zeta.
  change (2 ^ 53)%positive with 9007199254740992%positive. lra.
Qed.



(** The entry of [near_singular_definite_rho] next above -1/2: it is
    [-1/2 + 2^-54]. *)
Lemma real_of_definite_entry :
  real_of (-0x1.fffffffffffffp-2) = - (1 / 2) + 1 / 18014398509481984.
Proof.
  unfold real_of.
  change (Prim2SF (-0x1.fffffffffffffp-2))
    with (S754_finite true 9007199254740991 (-54)).
  cbv beta iota zeta.
  change (2 ^ 54)%positive with 18014398509481984%positive. lra.
Qed.

Ltac symmetric3 :=
  intros [|[|[|i]]] [|[|[|j]]]; try reflexivity; destruct i, j; reflexivity.



Lemma near_singular_definite_rho_symmetric :
  symmetric near_singular_definite_rho.
Proof. symmetric3. Qed.

Lemma near_singular_definite_rho_positive_definite :
  positive_definite 3 (map (map real_of) near_singular_definite_rho).
Proof.
  intros [|x [|y [|z [|w ws]]]] Hlen Hne; simpl in Hlen; try discriminate Hlen.
  unfold qform, dot, near_singular_definite_rho. simpl.
  rewrite real_of_1, real_of_half, real_of_definite_entry.
  set (eps := 1 / 18014398509481984).
  assert (Heps : 0 < eps < 1 / 4) by (unfold eps; lra).
  replace (_ + _) with
    ((x + y / 2 + z / 2) * (x + y / 2 + z / 2)
     + (3 / 4 - eps) * ((y - z) * (y - z)) + eps * (y * y + z * z))
    by (unfold eps; field).
  pose proof (Rle_0_sqr (x + y / 2 + z / 2)) as H1. unfold Rsqr in H1.
  pose proof (Rle_0_sqr (y - z)) as H2. unfold Rsqr in H2.
  pose proof (Rle_0_sqr y) as H3. unfold Rsqr in H3.
  pose proof (Rle_0_sqr z) as H4. unfold Rsqr in H4.
  assert (H5 : 0 <= (3 / 4 - eps) * ((y - z) * (y - z)))
    by (apply Rmult_le_pos; lra).
  destruct (Req_dec y 0) as [->|Hy].
  - destruct (Req_dec z 0) as [->|Hz].
    + destruct (Req_dec x 0) as [->|Hx]; [exfalso; apply Hne; reflexivity|].
      assert (0 < x * x) by (apply Rsqr_pos_lt; exact Hx).
      replace ((x + 0 / 2 + 0 / 2) * (x + 0 / 2 + 0 / 2)) with (x * x) by field.
      replace ((0 - 0) * (0 - 0)) with 0 by ring.
      replace (0 * 0 + 0 * 0) with 0 by ring. lra.
    + assert (0 < z * z) by (apply Rsqr_pos_lt; exact Hz).
      assert (0 < eps * (0 * 0 + z * z)) by (apply Rmult_lt_0_compat; lra). lra.
  - assert (0 < y * y) by (apply Rsqr_pos_lt; exact Hy).
    assert (0 < eps * (y * y + z * z)) by (apply Rmult_lt_0_compat; lra). lra.
Qed.

Lemma b64_singular_rho_symmetric : symmetric b64_singular_rho.
Proof. intros [|[|i]] [|[|j]]; try reflexivity; destruct i, j; reflexivity. Qed.

Lemma b64_singular_rho_semidefinite (x y : R) :
  0 <= qform (map (map real_of) b64_singular_rho) [x; y].
Proof.
  unfold qform, dot, b64_singular_rho. simpl. rewrite real_of_1.
  pose proof (Rle_0_sqr (x + y)) as Hsq. unfold Rsqr in Hsq. lra.
Qed.

Lemma b64_configuration_keys (sigma rho : pyval float) :
  forall key, is_Some (b64_configuration sigma rho !! key) ->
              key ∈ ["sigma"; "r"; "rho"].
Proof.
  intros key Hkey. unfold b64_configuration in Hkey.
  apply lookup_insert_is_Some in Hkey as [<-|[_ Hkey]]; [set_solver|].
  apply lookup_insert_is_Some in Hkey as [<-|[_ Hkey]]; [set_solver|].
  apply lookup_insert_is_Some in Hkey as [<-|[_ Hkey]]; [set_solver|].
  rewrite lookup_empty in Hkey. destruct Hkey as [v Hv]. discriminate.
Qed.

Lemma b64_init (sigma rho : pyval float) :
  __init__ "GeoBrownian" 100%float (b64_configuration sigma rho) =
    Ok (b64_engine (b64_configuration sigma rho)).
Proof. apply init_ok, b64_configuration_keys. Qed.

End Binary64Samples.

(** ** The engine on the binary64 sample configurations *)

Section Binary64Instances.
Import SimEngine.
Local Open Scope float_scope.





Lemma output_shape_witness :
  __init__ "GeoBrownian" 100 b64_sample_kwargs =
    Ok (b64_engine b64_sample_kwargs) /\
  b64_sample_kwargs !! "sigma" = Some (PySeq KList b64_sigma) /\
  b64_sample_kwargs !! "r" = Some (PyFloat b64_rate) /\
  n_dim (b64_engine b64_sample_kwargs) = Ok 2%nat /\
  (exists rows l,
     b64_sample_kwargs !! "rho" = Some (Py2D KMatrix rows) /\
     length rows = 2%nat /\
     np_linalg_cholesky (Py2D KMatrix rows) = Ok l) /\
  length (promote (TSeq [1; 2; 3])) = 3%nat /\
  exists prc,
    fst (prc_generator (b64_engine b64_sample_kwargs) (TSeq [1; 2; 3])
           b64_rng) = Ok prc /\
    has_shape 3 2 prc.
Proof.
  assert (Hinit := b64_init (PySeq KList b64_sigma) (Py2D KMatrix b64_rho)).
  assert (Hrho : exists rows l,
             b64_sample_kwargs !! "rho" = Some (Py2D KMatrix rows) /\
             length rows = 2%nat /\
             np_linalg_cholesky (Py2D KMatrix rows) = Ok l).
  { exists b64_rho. eexists. repeat split. }
  split; [exact Hinit|]. split; [reflexivity|]. split; [reflexivity|].
  split; [reflexivity|]. split; [exact Hrho|]. split; [reflexivity|].
  apply (output_shape (F := float) "GeoBrownian" 100 b64_sample_kwargs
           (b64_engine b64_sample_kwargs) (PySeq KList b64_sigma) b64_rate
           2 3 (TSeq [1; 2; 3]) b64_rng Hinit eq_refl
           (or_intror (ex_intro _ b64_sigma eq_refl)) eq_refl eq_refl
           (fun _ => Hrho) eq_refl (le_S _ _ (le_S _ _ (le_n 1)))).
Defined.

(** Against C8 as stated.  Two perfectly correlated assets: the correlation
    matrix is symmetric and positive semidefinite, and the simulate call
    returns no array, the factorisation refusing a singular matrix.  And a
    tuple [sigma] of two volatilities: the dimension count is 1 and the
    rows of the array have two columns. *)
Lemma singular_rho_returns_no_array :
  (symmetric b64_singular_rho /\
   (forall x y : R,
      (0 <= qform (map (map real_of) b64_singular_rho) [x; y])%R) /\
   __init__ "GeoBrownian" 100 b64_singular_kwargs =
     Ok (b64_engine b64_singular_kwargs) /\
   b64_singular_kwargs !! "rho" = Some (Py2D KMatrix b64_singular_rho) /\
   n_dim (b64_engine b64_singular_kwargs) = Ok 2%nat /\
   prc_generator (b64_engine b64_singular_kwargs) (TSeq [1; 2; 3]) b64_rng =
     (Raise LinAlgError, b64_rng)) /\
  (__init__ "GeoBrownian" 100 b64_tuple_kwargs =
     Ok (b64_engine b64_tuple_kwargs) /\
   b64_tuple_kwargs !! "sigma" = Some (PySeq KTuple b64_sigma) /\
   n_dim (b64_engine b64_tuple_kwargs) = Ok 1%nat /\
   exists prc g',
     prc_generator (b64_engine b64_tuple_kwargs) (TSeq [1; 2; 3]) b64_rng =
       (Ok prc, g') /\
     has_shape 3 2 prc).
Proof.
  split.
  - split; [exact b64_singular_rho_symmetric|].
    split; [exact b64_singular_rho_semidefinite|].
    split; [apply b64_init|]. split; [reflexivity|]. split; reflexivity.
  - split; [apply b64_init|]. split; [reflexivity|]. split; [reflexivity|].
    eexists. eexists. split; [vm_compute; reflexivity|].
    split; [reflexivity | repeat constructor].
Qed.

Lemma rho_must_be_numpy_matrix_witness :
  __init__ "GeoBrownian" 100 b64_ndarray_kwargs =
    Ok (b64_engine b64_ndarray_kwargs) /\
  __init__ "GeoBrownian" 100 b64_indefinite_ndarray_kwargs =
    Ok (b64_engine b64_indefinite_ndarray_kwargs) /\
  b64_ndarray_kwargs !! "rho" = Some (Py2D KNdarray2 b64_rho) /\
  b64_indefinite_ndarray_kwargs !! "rho" =
    Some (Py2D KNdarray2 b64_indefinite_rho) /\
  n_dim (b64_engine b64_ndarray_kwargs) = Ok 2%nat /\ (1 < 2)%nat /\
  KNdarray2 <> KMatrix /\
  (exists l, np_linalg_cholesky (Py2D KNdarray2 b64_rho) = Ok l) /\
  np_linalg_cholesky (Py2D KNdarray2 b64_indefinite_rho) = Raise LinAlgError /\
  prc_generator (b64_engine b64_ndarray_kwargs) (TSeq [1; 2]) b64_rng =
    (Raise (ValueError "Illegal input type of rho"), b64_rng) /\
  prc_generator (b64_engine b64_indefinite_ndarray_kwargs) (TSeq [1; 2])
    b64_rng = (Raise LinAlgError, b64_rng).
Proof.
  assert (Hinit := b64_init (PySeq KList b64_sigma) (Py2D KNdarray2 b64_rho)).
  assert (Hinit' := b64_init (PySeq KList b64_sigma)
                      (Py2D KNdarray2 b64_indefinite_rho)).
  assert (Hlt : (1 < 2)%nat) by lia.
  assert (Hk : KNdarray2 <> KMatrix) by discriminate.
  assert (Hchol : np_linalg_cholesky (Py2D KNdarray2 b64_rho) =
                  Ok [[1; 0]; [0.5; PrimFloat.sqrt 0.75]]) by reflexivity.
  assert (Hfail : np_linalg_cholesky (Py2D KNdarray2 b64_indefinite_rho) =
                  Raise LinAlgError) by reflexivity.
  split; [exact Hinit|]. split; [exact Hinit'|]. split; [reflexivity|].
  split; [reflexivity|]. split; [reflexivity|].
  split; [exact Hlt|]. split; [exact Hk|]. split; [eexists; exact Hchol|].
  split; [exact Hfail|]. split.
  - exact (proj1 (rho_must_be_numpy_matrix (F := float) "GeoBrownian" 100
                    b64_ndarray_kwargs (b64_engine b64_ndarray_kwargs)
                    (PySeq KList b64_sigma) (PyFloat b64_rate)
                    (Py2D KNdarray2 b64_rho) 2 (TSeq [1; 2]) b64_rng
                    Hinit eq_refl eq_refl eq_refl Hlt eq_refl)
             KNdarray2 b64_rho _ eq_refl Hk Hchol).
  - exact (proj2 (proj2 (rho_must_be_numpy_matrix (F := float) "GeoBrownian"
                    100 b64_indefinite_ndarray_kwargs
                    (b64_engine b64_indefinite_ndarray_kwargs)
                    (PySeq KList b64_sigma) (PyFloat b64_rate)
                    (Py2D KNdarray2 b64_indefinite_rho) 2
                    (TSeq [1; 2]) b64_rng
                    Hinit' eq_refl eq_refl eq_refl Hlt eq_refl)
             LinAlgError Hfail)).
Defined.

(** Against C10 as stated: a 3-by-3 correlation matrix, symmetric and
    positive definite, held in a plain [numpy.ndarray], on which the
    factorisation fails in binary64; the simulate call fails with
    [LinAlgError], and not with the error of the type check. *)
Lemma positive_definite_ndarray_fails_decomposition :
  has_shape 3 3 near_singular_definite_rho /\
  symmetric near_singular_definite_rho /\
  positive_definite 3 (map (map real_of) near_singular_definite_rho) /\
  __init__ "GeoBrownian" 100 near_singular_definite_kwargs =
    Ok (b64_engine near_singular_definite_kwargs) /\
  near_singular_definite_kwargs !! "rho" =
    Some (Py2D KNdarray2 near_singular_definite_rho) /\
  n_dim (b64_engine near_singular_definite_kwargs) = Ok 3%nat /\
  prc_generator (b64_engine near_singular_definite_kwargs) (TSeq [1; 2])
    b64_rng = (Raise LinAlgError, b64_rng).
Proof.
  split; [split; [reflexivity | repeat constructor]|].
  split; [exact near_singular_definite_rho_symmetric|].
  split; [exact near_singular_definite_rho_positive_definite|].
  split; [apply b64_init|]. split; [reflexivity|]. split; reflexivity.
Qed.

End Binary64Instances.

(** ** Construction: what is refused *)

Section ConstructionRefusals.
Context {F : Type} `{Float64 F}.
Import SimEngine.

Lemma check_keys_outcome (keys : list string) :
  for_loop
    (fun (_ : unit) key =>
       allowed ← getitem full_kwarg_map "GeoBrownian";
       if bool_decide (key ∈ allowed) then Ok tt
       else Raise (ValueError "Illegal input of kwargs!"))
    tt keys = Ok tt \/
  for_loop
    (fun (_ : unit) key =>
       allowed ← getitem full_kwarg_map "GeoBrownian";
       if bool_decide (key ∈ allowed) then Ok tt
       else Raise (ValueError "Illegal input of kwargs!"))
    tt keys = Raise (ValueError "Illegal input of kwargs!").
Proof.
  induction keys as [|key keys IH]; simpl; [left; reflexivity|].
  rewrite getitem_full_kwarg_map. simpl.
  destruct (bool_decide (key ∈ ["sigma"; "r"; "rho"])); simpl;
    [exact IH | right; reflexivity].
Qed.

(** A method other than [GeoBrownian] is refused, whatever the keyword
    arguments are. *)
Lemma init_unknown_method (method : string) (s0 : F)
    (kw : gmap string (pyval F)) :
  method <> "GeoBrownian" ->
  __init__ method s0 kw = Raise (ValueError "Illegal input of method!").
Proof.
  intros Hm. unfold __init__.
  rewrite bool_decide_eq_false_2; [reflexivity|].
  unfold full_methods. rewrite list_elem_of_singleton. exact Hm.
Qed.

(** One keyword argument outside [sigma], [r], [rho] is enough for
    construction to be refused. *)
Lemma init_unlisted_key (s0 : F) (kw : gmap string (pyval F))
    (key : string) :
  is_Some (kw !! key) -> key ∉ ["sigma"; "r"; "rho"] ->
  __init__ "GeoBrownian" s0 kw = Raise (ValueError "Illegal input of kwargs!").
Proof.
  intros Hkey Hout. unfold __init__. simpl.
  destruct (check_keys_outcome (map fst (map_to_list kw))) as [Hok|Hbad].
  - exfalso. apply Hout.
    apply check_keys_inv in Hok.
    exact (proj1 (keys_whitelisted kw) Hok key Hkey).
  - rewrite Hbad. reflexivity.
Qed.

(** X1.  The three outcomes of construction, in the order in which the
    constructor decides them: a method other than [GeoBrownian] gives the
    method error, whatever the keyword arguments; otherwise one keyword
    argument outside [sigma], [r], [rho] gives the keyword error, whatever
    the others; otherwise the engine is built and holds the arguments as
    they were given. *)
Theorem construction_outcome (method : string) (s0 : F)
    (kw : gmap string (pyval F)) :
  (method <> "GeoBrownian" ->
   __init__ method s0 kw = Raise (ValueError "Illegal input of method!")) /\
  (method = "GeoBrownian" ->
   (exists key, is_Some (kw !! key) /\ key ∉ ["sigma"; "r"; "rho"]) ->
   __init__ method s0 kw = Raise (ValueError "Illegal input of kwargs!")) /\
  (method = "GeoBrownian" ->
   (forall key, is_Some (kw !! key) -> key ∈ ["sigma"; "r"; "rho"]) ->
   __init__ method s0 kw =
     Ok {| _method := method; _kwargs := kw; _s_0 := s0; _n_dim := None |}).
Proof.
  split; [apply init_unknown_method|]. split.
  - intros -> (key & Hkey & Hout). eapply init_unlisted_key; eassumption.
  - intros -> Hkeys. apply init_ok. exact Hkeys.
Qed.

End ConstructionRefusals.

(** ** The path evolver: broadcasting and prefixes *)

Section EvolverBroadcast.
Context {F : Type} `{Float64 F}.

Lemma broadcast_singleton_l (f : F -> F -> F) (x : F) (ys : list F) :
  broadcast f [x] ys = Ok (map (f x) ys).
Proof. reflexivity. Qed.

Lemma broadcast_singleton_r (f : F -> F -> F) (xs : list F) (y : F) :
  broadcast f xs [y] = Ok (map (fun x => f x y) xs).
Proof. destruct xs as [|x [|x' xs]]; reflexivity. Qed.

Lemma column_single (T : nat) (epsilon : list (list F)) (i : nat) :
  has_shape 1 T epsilon -> i < T ->
  exists e, column epsilon i = Ok [e] /\ entry epsilon 0 i = Some e.
Proof.
  intros [Hlen Hrows] Hi.
  destruct (column_spec epsilon T i Hrows Hi) as (c & Hc & Hclen & Hget).
  rewrite Hlen in Hclen. destruct c as [|e [|e' c]]; try discriminate.
  exists e. split; [exact Hc|]. unfold entry. rewrite <- Hget. reflexivity.
Qed.

(** The price of asset [j] in an array of prices that is either the
    one-element initial array or has one price per volatility. *)
Lemma shared_price_lookup (m : nat) (s sigma : list F) (j : nat) (sg : F) :
  length sigma = m -> length s = m -> sigma !! j = Some sg ->
  match s with [p0] => Some p0 | _ => s !! j end = s !! j.
Proof.
  intros Hsigma Hs Hsg. destruct s as [|p0 [|p1 s]]; try reflexivity.
  apply lookup_lt_Some in Hsg. rewrite Hsigma, <- Hs in Hsg. simpl in Hsg.
  destruct j; [reflexivity | lia].
Qed.

Lemma gbm_update_shared (m : nat) (s sigma : list F) (r t e : F) :
  length sigma = m -> length s = 1 \/ length s = m ->
  exists s', gbm_update s sigma r t [e] = Ok s' /\ length s' = m /\
    forall j p sg,
      match s with [p0] => Some p0 | _ => s !! j end = Some p ->
      sigma !! j = Some sg ->
      s' !! j = Some (fmul p (growth r sg t e)).
Proof.
  intros Hsigma Hs. unfold gbm_update.
  rewrite broadcast_singleton_r. simpl.
  rewrite broadcast_same_length by (rewrite !length_map; reflexivity).
  simpl.
  assert (Hget : forall j sg, sigma !! j = Some sg ->
            map np_exp
              (zip_with fadd
                 (map (fun a => fmul a t)
                    (map (fun p => fsub r (fdiv p f2)) (map np_power2 sigma)))
                 (map (fun c => fmul c (np_sqrt t))
                    (map (fun x => fmul x e) sigma))) !! j =
            Some (growth r sg t e)).
  { intros j sg Hsg.
    rewrite list_lookup_fmap, lookup_zip_with, !list_lookup_fmap, Hsg.
    reflexivity. }
  assert (Hlen : length
            (map np_exp
              (zip_with fadd
                 (map (fun a => fmul a t)
                    (map (fun p => fsub r (fdiv p f2)) (map np_power2 sigma)))
                 (map (fun c => fmul c (np_sqrt t))
                    (map (fun x => fmul x e) sigma)))) = m).
  { rewrite length_map, length_zip_with, !length_map. lia. }
  destruct s as [|p0 [|p1 s]].
  - assert (Hm : m = 0) by (destruct Hs as [Hs|Hs]; simpl in Hs; lia).
    rewrite broadcast_same_length by (rewrite Hlen, Hm; reflexivity).
    eexists. split; [reflexivity|].
    split; [rewrite length_zip_with, Hlen; simpl; lia|].
    intros j p sg Hp. discriminate Hp.
  - rewrite broadcast_singleton_l. eexists. split; [reflexivity|].
    split; [rewrite length_map; exact Hlen|].
    intros j p sg [= <-] Hsg.
    rewrite list_lookup_fmap, (Hget j sg Hsg). reflexivity.
  - assert (Hsm : length (p0 :: p1 :: s) = m)
      by (destruct Hs as [Hs|Hs]; [simpl in Hs; lia | exact Hs]).
    rewrite broadcast_same_length by (rewrite Hlen; exact Hsm).
    eexists. split; [reflexivity|].
    split; [rewrite length_zip_with, Hlen; lia|].
    intros j p sg Hp Hsg.
    rewrite lookup_zip_with, Hp. simpl. rewrite (Hget j sg Hsg). reflexivity.
Qed.

(** The loop on a single row of shocks. *)
Lemma shared_shock_loop (m T : nat) (sigma : list F) (r : F)
    (epsilon : list (list F)) :
  length sigma = m -> has_shape 1 T epsilon ->
  forall (ts : list F) (i : nat) (s : list F) (prc : list (list F)),
    length s = 1 \/ length s = m -> i + length ts <= T ->
    exists s' rows,
      for_loop
        (fun '(s_array, prc) '(t, i) =>
           epsilon_current ← column epsilon i;
           s_array ← gbm_update s_array sigma r t epsilon_current;
           Ok (s_array, prc ++ [s_array]))
        (s, prc) (zip ts (seq i (length ts))) = Ok (s', prc ++ rows) /\
      has_shape (length ts) m rows /\
      forall k j dt sg e,
        ts !! k = Some dt -> sigma !! j = Some sg ->
        entry epsilon 0 (i + k) = Some e ->
        exists prev,
          match k with
          | 0 => match s with [p0] => Some p0 | _ => s !! j end
          | S k' => entry rows k' j
          end = Some prev /\
          entry rows k j = Some (fmul prev (growth r sg dt e)).
Proof.
  intros Hsigma Heps ts.
  induction ts as [|t ts IH]; intros i s prc Hs Hi; simpl.
  - exists s, []. rewrite app_nil_r. split; [reflexivity|].
    split; [split; [reflexivity | constructor]|].
    intros k j dt sg e Hk. discriminate.
  - simpl in Hi.
    destruct (column_single T epsilon i Heps) as (e0 & Hc & He0); [lia|].
    rewrite Hc. simpl.
    destruct (gbm_update_shared m s sigma r t e0 Hsigma Hs)
      as (s1 & Hupd & Hs1 & Hs1get).
    rewrite Hupd. simpl.
    destruct (IH (S i) s1 (prc ++ [s1]) (or_intror Hs1))
      as (s' & rows & Hloop & [Hrl Hrs] & Hrows); [lia|].
    exists s', (s1 :: rows). rewrite Hloop, <- app_assoc. simpl.
    split; [reflexivity|].
    split; [split; [simpl; congruence | constructor; assumption]|].
    intros k j dt sg e Hk Hsg He.
    destruct k as [|k]; simpl in Hk.
    + injection Hk as ->. rewrite Nat.add_0_r, He0 in He. injection He as ->.
      assert (Hprev : exists p,
                match s with [p0] => Some p0 | _ => s !! j end = Some p).
      { destruct s as [|p0 [|p1 s]].
        - destruct Hs as [Hs|Hs]; simpl in Hs; [lia|].
          apply lookup_lt_Some in Hsg. lia.
        - eauto.
        - apply lookup_lt_is_Some_2.
          destruct Hs as [Hs|Hs]; [simpl in Hs; lia|].
          rewrite Hs, <- Hsigma. eapply lookup_lt_Some; eassumption. }
      destruct Hprev as [p Hp]. exists p. split; [exact Hp|].
      unfold entry. simpl. apply Hs1get; assumption.
    + replace (i + S k) with (S i + k) in He by lia.
      destruct (Hrows k j dt sg e Hk Hsg He) as (prev & Hprev & Hent).
      exists prev. split; [|exact Hent].
      destruct k as [|k]; [|exact Hprev].
      rewrite (shared_price_lookup m s1 sigma j sg Hsigma Hs1 Hsg) in Hprev.
      exact Hprev.
Qed.

(** With a dimension count of 1 and a single row of shocks, the loop
    broadcasts the one initial price and the one shock of each step over the
    volatilities, whatever their number. *)
Lemma shared_shock_path (s_0 r : F) (T : nat) (t_diff sigma : list F)
    (epsilon : list (list F)) :
  length t_diff = T -> has_shape 1 T epsilon ->
  exists prc,
    _fast_sim_loop_geo_brownian s_0 1 t_diff sigma r epsilon = Ok prc /\
    has_shape T (length sigma) prc /\
    forall t j dt sg e,
      t_diff !! t = Some dt -> sigma !! j = Some sg ->
      entry epsilon 0 t = Some e ->
      exists prev,
        previous s_0 prc t j = Some prev /\
        entry prc t j = Some (fmul prev (growth r sg dt e)).
Proof.
  intros HT Heps. unfold _fast_sim_loop_geo_brownian.
  destruct (shared_shock_loop (length sigma) T sigma r epsilon eq_refl Heps
              t_diff 0 (replicate 1 s_0) [])
    as (s' & rows & Hloop & Hshape & Hrows).
  { left. reflexivity. }
  { lia. }
  rewrite Hloop. simpl. exists rows. split; [reflexivity|].
  split; [rewrite <- HT; exact Hshape|].
  intros t j dt sg e Ht Hsg He.
  destruct (Hrows t j dt sg e Ht Hsg He) as (prev & Hprev & Hent).
  exists prev. split; [|exact Hent].
  destruct t as [|t]; exact Hprev.
Qed.

End EvolverBroadcast.

Section EvolverPrefix.
Context {F : Type} `{Float64 F}.

Lemma for_loop_app {S X} (body : S -> X -> result S) (xs ys : list X) :
  forall st,
    for_loop body st (xs ++ ys) =
    st' ← for_loop body st xs; for_loop body st' ys.
Proof.
  induction xs as [|x xs IH]; intros st; simpl; [reflexivity|].
  destruct (body st x) as [st1|e]; simpl; [apply IH | reflexivity].
Qed.

Lemma zip_seq_app (ts1 ts2 : list F) (i : nat) :
  zip (ts1 ++ ts2) (seq i (length (ts1 ++ ts2))) =
  zip ts1 (seq i (length ts1)) ++ zip ts2 (seq (i + length ts1) (length ts2)).
Proof.
  rewrite length_app, seq_app.
  apply zip_with_app. rewrite length_seq. reflexivity.
Qed.

(** Each iteration appends one row to the rows collected so far. *)
Lemma fast_sim_loop_rows (sigma : list F) (r : F) (epsilon : list (list F))
    (steps : list (F * nat)) :
  forall s prc s' prc',
    for_loop
      (fun '(s_array, prc) '(t, i) =>
         epsilon_current ← column epsilon i;
         s_array ← gbm_update s_array sigma r t epsilon_current;
         Ok (s_array, prc ++ [s_array]))
      (s, prc) steps = Ok (s', prc') ->
    exists rows, prc' = prc ++ rows /\ length rows = length steps.
Proof.
  induction steps as [|[t i] steps IH]; intros s prc s' prc'; simpl.
  - intros [= <- <-]. exists []. rewrite app_nil_r. auto.
  - destruct (column epsilon i) as [c|e]; simpl; [|discriminate].
    destruct (gbm_update s sigma r t c) as [s1|e]; simpl; [|discriminate].
    intros Hloop. apply IH in Hloop as (rows & -> & Hlen).
    exists (s1 :: rows). rewrite <- app_assoc. simpl. auto.
Qed.

Lemma broadcast_raises (f : F -> F -> F) (xs ys : list F) (e : exn) :
  broadcast f xs ys = Raise e -> e = ValueError broadcast_msg.
Proof.
  unfold broadcast.
  destruct xs as [|x [|x' xs]], ys as [|y [|y' ys]]; try discriminate;
    destruct (decide _); try discriminate; intros [= <-]; reflexivity.
Qed.

Lemma gbm_update_raises (s sigma : list F) (r t : F) (c : list F) (e : exn) :
  gbm_update s sigma r t c = Raise e -> e = ValueError broadcast_msg.
Proof.
  unfold gbm_update.
  destruct (broadcast fmul sigma c) as [se|e1] eqn:H1; simpl;
    [|intros [= <-]; exact (broadcast_raises _ _ _ _ H1)].
  destruct (broadcast fadd _ _) as [ex|e2] eqn:H2; simpl;
    [|intros [= <-]; exact (broadcast_raises _ _ _ _ H2)].
  apply broadcast_raises.
Qed.

Lemma column_in_bounds (a : list (list F)) (i : nat) :
  Forall (fun row => i < length row) a -> exists c, column a i = Ok c.
Proof.
  intros Hrows. unfold column.
  induction Hrows as [|row a Hrow Hrows IH]; simpl; [eexists; reflexivity|].
  destruct IH as (c & Hc).
  destruct (lookup_lt_is_Some_2 row i Hrow) as [v Hv]. rewrite Hv. simpl.
  destruct (mapM _ a) as [c'|]; [|discriminate]. simpl. eexists. reflexivity.
Qed.

(** With every column in range, the loop fails by broadcasting only. *)
Lemma fast_sim_loop_raises (sigma : list F) (r : F) (epsilon : list (list F))
    (steps : list (F * nat)) :
  Forall (fun step => Forall (fun row => snd step < length row) epsilon) steps ->
  forall s prc e,
    for_loop
      (fun '(s_array, prc) '(t, i) =>
         epsilon_current ← column epsilon i;
         s_array ← gbm_update s_array sigma r t epsilon_current;
         Ok (s_array, prc ++ [s_array]))
      (s, prc) steps = Raise e ->
    e = ValueError broadcast_msg.
Proof.
  induction 1 as [|[t i] steps Hstep Hsteps IH]; intros s prc e; simpl;
    [discriminate|].
  destruct (column_in_bounds epsilon i Hstep) as [c ->]. simpl.
  destruct (gbm_update s sigma r t c) as [s1|e1] eqn:Hupd; simpl.
  - apply IH.
  - intros [= <-]. exact (gbm_update_raises _ _ _ _ _ _ Hupd).
Qed.

Lemma steps_in_bounds (ts : list F) (m : nat) (epsilon : list (list F)) :
  length ts <= m -> Forall (fun row => m <= length row) epsilon ->
  Forall (fun step : F * nat => Forall (fun row => snd step < length row) epsilon)
         (zip ts (seq 0 (length ts))).
Proof.
  intros Hm Hrows. apply Forall_forall. intros [t i] Hin.
  apply list_elem_of_lookup in Hin as [k Hk].
  apply lookup_zip_with_Some in Hk as (t' & i' & [= <- <-] & _ & Hi).
  apply lookup_seq in Hi as [-> Hlt]. simpl.
  eapply Forall_impl; [exact Hrows|]. simpl. intros row Hrow. lia.
Qed.

(** X2.  The path over the first evaluation times does not depend on the
    later ones.  When every row of the shock array has a column for each
    step: if the loop succeeds on the deltas [ts1 ++ ts2], it succeeds on
    [ts1] with the first rows of the same path; and if it fails on [ts1], it
    fails by broadcasting, and in the same way on [ts1 ++ ts2]. *)
Theorem path_of_prefix (s_0 r : F) (n : nat) (ts1 ts2 sigma : list F)
    (epsilon : list (list F)) :
  Forall (fun row => length (ts1 ++ ts2) <= length row) epsilon ->
  (forall prc,
     _fast_sim_loop_geo_brownian s_0 n (ts1 ++ ts2) sigma r epsilon = Ok prc ->
     _fast_sim_loop_geo_brownian s_0 n ts1 sigma r epsilon =
       Ok (take (length ts1) prc)) /\
  (forall e,
     _fast_sim_loop_geo_brownian s_0 n ts1 sigma r epsilon = Raise e ->
     e = ValueError broadcast_msg /\
     _fast_sim_loop_geo_brownian s_0 n (ts1 ++ ts2) sigma r epsilon = Raise e).
Proof.
  intros Hbound.
  pose proof (steps_in_bounds ts1 (length (ts1 ++ ts2)) epsilon) as Hsteps.
  rewrite length_app in Hsteps. specialize (Hsteps ltac:(lia)).
  rewrite <- length_app in Hsteps. specialize (Hsteps Hbound).
  unfold _fast_sim_loop_geo_brownian.
  rewrite zip_seq_app, for_loop_app.
  destruct (for_loop _ (replicate n s_0, []) (zip ts1 (seq 0 (length ts1))))
    as [[s1 prc1]|e1] eqn:Hfirst; simpl.
  - split; [|intros e He; discriminate He].
    intros prc.
    destruct (for_loop _ (s1, prc1) _) as [[s2 prc2]|e2] eqn:Hsecond; simpl;
      [|discriminate].
    intros [= <-].
    apply fast_sim_loop_rows in Hfirst as (rows1 & -> & Hlen1).
    apply fast_sim_loop_rows in Hsecond as (rows2 & -> & _).
    rewrite length_zip_with, length_seq, Nat.min_id in Hlen1.
    simpl. rewrite <- Hlen1, take_app_length. reflexivity.
  - split; [intros prc Hprc; discriminate Hprc|].
    intros e [= <-]. split; [|reflexivity].
    exact (fast_sim_loop_raises sigma r epsilon _ Hsteps _ _ _ Hfirst).
Qed.

End EvolverPrefix.

Section EvolverArrayRate.
Context {F : Type} `{Float64 F}.




End EvolverArrayRate.

(** ** The simulate call: order of the failures, draws, outcomes *)

Section GeneratorOutcomes.
Context {F : Type} `{Float64 F}.
Import SimEngine.

#[local] Arguments np_linalg_cholesky : simpl never.
#[local] Arguments n_dim : simpl never.
#[local] Arguments jit_call : simpl never.

(** X3.  With [sigma] given and no [r], the simulate call raises
    [KeyError('r')] and draws nothing, whatever [rho] is: [r] is read before
    [rho] is looked at. *)
Theorem missing_r_reported_before_rho (method : string) (s0 : F)
    (kw : gmap string (pyval F)) (self : engine F) upper_t g :
  __init__ method s0 kw = Ok self ->
  is_Some (kw !! "sigma") -> kw !! "r" = None ->
  prc_generator self upper_t g = (Raise (KeyError "r"), g).
Proof.
  intros Hinit [sigma Hsigma] Hr.
  apply init_fields in Hinit as (Hm & Hkw & _). rewrite <- Hkw in Hsigma, Hr.
  unfold prc_generator. rewrite Hm. simpl.
  unfold kwargs, getitem. rewrite Hsigma, Hr. reflexivity.
Qed.

(** X4.  With more than one dimension and no [rho], the simulate call raises
    [KeyError('rho')] and draws nothing. *)
Theorem missing_rho_with_several_dimensions (method : string) (s0 : F)
    (kw : gmap string (pyval F)) (self : engine F) (n : nat) upper_t g :
  __init__ method s0 kw = Ok self ->
  is_Some (kw !! "sigma") -> is_Some (kw !! "r") ->
  n_dim self = Ok n -> 1 < n -> kw !! "rho" = None ->
  prc_generator self upper_t g = (Raise (KeyError "rho"), g).
Proof.
  intros Hinit [sigma Hsigma] [r Hr] Hn Hlt Hrho.
  apply init_fields in Hinit as (Hm & Hkw & _).
  rewrite <- Hkw in Hsigma, Hr, Hrho.
  eapply prc_generator_no_rho; eassumption.
Qed.

(** X5.  The type check comes before the dimension check: with more than
    one dimension, a [rho] that factorises but is not a [numpy.matrix] is
    refused with the type error whatever its side, the wrong one included. *)
Theorem type_check_precedes_dimension_check (method : string) (s0 : F)
    (kw : gmap string (pyval F)) (self : engine F) (n : nat)
    (k : mat_kind) (rows : list (list F)) upper_t g :
  __init__ method s0 kw = Ok self ->
  is_Some (kw !! "sigma") -> is_Some (kw !! "r") ->
  n_dim self = Ok n -> 1 < n ->
  kw !! "rho" = Some (Py2D k rows) -> k <> KMatrix ->
  (exists l, np_linalg_cholesky (Py2D k rows) = Ok l) ->
  prc_generator self upper_t g =
    (Raise (ValueError "Illegal input type of rho"), g).
Proof.
  intros Hinit [sigma Hsigma] [r Hr] Hn Hlt Hrho Hk [l Hl].
  apply init_fields in Hinit as (Hm & Hkw & _).
  rewrite <- Hkw in Hsigma, Hr, Hrho.
  eapply prc_generator_rho_type; try eassumption.
  intros rows' [= -> _]. apply Hk. reflexivity.
Qed.

(** X6.  A call that reaches the draw (at most one dimension, or a [rho]
    that passes the three checks) takes exactly [n_dim * T] variates from
    the generator, whether or not the compiled loop then accepts its
    arguments. *)
Theorem draws_consumed (method : string) (s0 : F)
    (kw : gmap string (pyval F)) (self : engine F) (n : nat) upper_t g :
  __init__ method s0 kw = Ok self ->
  is_Some (kw !! "sigma") -> is_Some (kw !! "r") ->
  n_dim self = Ok n ->
  (1 < n -> exists rows l,
      kw !! "rho" = Some (Py2D KMatrix rows) /\ length rows = n /\
      np_linalg_cholesky (Py2D KMatrix rows) = Ok l) ->
  snd (prc_generator self upper_t g) =
    {| stream := stream g;
       drawn := drawn g + n * length (promote upper_t) |}.
Proof.
  intros Hinit [sigma Hsigma] [r Hr] Hn Hrho.
  apply init_fields in Hinit as (Hm & Hkw & _).
  rewrite <- Hkw in Hsigma, Hr, Hrho.
  destruct (le_lt_dec n 1) as [Hle|Hlt].
  - pose proof (prc_generator_small self upper_t g sigma r n
                  Hm Hsigma Hr Hn Hle) as Hgen.
    cbv zeta in Hgen. rewrite Hgen. cbn [snd]. unfold np_random_normal.
    cbn [snd]. rewrite np_diff_prepend0_length. reflexivity.
  - destruct (Hrho Hlt) as (rows & l & Hrows & Hside & Hchol).
    pose proof (prc_generator_large self upper_t g sigma r n rows l
                  Hm Hsigma Hr Hn Hlt Hrows Hchol Hside) as Hgen.
    cbv zeta in Hgen. rewrite Hgen. cbn [snd]. unfold np_random_normal.
    cbn [snd]. rewrite np_diff_prepend0_length. reflexivity.
Qed.

Lemma raw_draw_entry (T t : nat) (g : rng F) :
  t < T ->
  entry (map (map (fmul f1)) (fst (np_random_normal 1 T g))) 0 t =
    Some (fmul f1 (stream g (drawn g + t))).
Proof.
  intros Ht. unfold np_random_normal, entry. simpl.
  rewrite !list_lookup_fmap, lookup_seq_lt by exact Ht. simpl.
  do 3 f_equal. lia.
Qed.

(** X7.  With a dimension count of 1 and a float [r], whatever the number
    of volatilities that a float, list, tuple or 1-D array [sigma] holds,
    the simulate call succeeds with one column per volatility, and all the
    columns are driven by the same draws: the price of asset [j] at step [t]
    is its previous price times the growth factor for [sigma_j] and the
    [t]-th draw (multiplied by 1). *)
Theorem single_dimension_shares_draws (method : string) (s0 : F)
    (kw : gmap string (pyval F)) (self : engine F) (sigma : pyval F)
    (sg : list F) (r : F) upper_t g :
  __init__ method s0 kw = Ok self ->
  kw !! "sigma" = Some sigma -> np_array_of_sigma sigma = Arr1 sg ->
  kw !! "r" = Some (PyFloat r) -> n_dim self = Ok 1 ->
  exists prc,
    fst (prc_generator self upper_t g) = Ok prc /\
    has_shape (length (promote upper_t)) (length sg) prc /\
    forall t j dt sgj,
      np_diff_prepend0 (promote upper_t) !! t = Some dt -> sg !! j = Some sgj ->
      exists prev,
        previous s0 prc t j = Some prev /\
        entry prc t j =
          Some (fmul prev
                  (growth r sgj dt (fmul f1 (stream g (drawn g + t))))).
Proof.
  intros Hinit Hsigma Hsg Hr Hn.
  apply init_fields in Hinit as (Hm & Hkw & Hs0).
  rewrite <- Hkw in Hsigma, Hr.
  pose proof (prc_generator_small self upper_t g sigma (PyFloat r) 1
                Hm Hsigma Hr Hn (le_n 1)) as Hgen.
  cbv zeta in Hgen. rewrite Hgen, Hsg, np_diff_prepend0_length. cbn [fst].
  unfold jit_call, s_0. rewrite Hs0.
  destruct (shared_shock_path s0 r (length (promote upper_t))
              (np_diff_prepend0 (promote upper_t)) sg
              (map (map (fmul f1))
                 (fst (np_random_normal 1 (length (promote upper_t)) g))))
    as (prc & Hprc & Hshape & Hrec).
  { apply np_diff_prepend0_length. }
  { apply scale_shape, np_random_normal_shape. }
  exists prc. split; [exact Hprc|]. split; [exact Hshape|].
  intros t j dt sgj Hdt Hsgj.
  apply (Hrec t j dt sgj _ Hdt Hsgj), raw_draw_entry.
  apply lookup_lt_Some in Hdt. rewrite np_diff_prepend0_length in Hdt.
  exact Hdt.
Qed.

(** What the compiled loop does when the engine calls it with a float [r]:
    it returns a path with one column per volatility, unless [sigma] is
    two-dimensional, which does not type. *)
Lemma loop_call_outcome (self : engine F) (sigma : pyval F) (r : F)
    (n T : nat) (t_diff : list F) (epsilon : list (list F)) :
  _method self = "GeoBrownian" -> _kwargs self !! "sigma" = Some sigma ->
  n_dim self = Ok n -> length t_diff = T -> has_shape n T epsilon ->
  (exists sg prc,
     np_array_of_sigma sigma = Arr1 sg /\
     jit_call (s_0 self) n t_diff (np_array_of_sigma sigma) (PyFloat r)
       epsilon = Ok prc /\
     has_shape T (length sg) prc) \/
  ((exists k rows, sigma = Py2D k rows) /\
   jit_call (s_0 self) n t_diff (np_array_of_sigma sigma) (PyFloat r)
     epsilon = Raise TypingError).
Proof.
  intros Hm Hsigma Hn HT Heps.
  rewrite (n_dim_spec self sigma Hm Hsigma) in Hn.
  destruct sigma as [x|k xs|k rows]; [| |right; split; [eauto | reflexivity]];
    left; unfold jit_call; simpl np_array_of_sigma.
  - simpl in Hn. injection Hn as <-.
    destruct (fast_sim_loop_spec (s_0 self) r 1 T t_diff [x] epsilon HT
                eq_refl Heps) as (prc & Hprc & Hshape & _).
    exists [x], prc. auto.
  - destruct k; simpl in Hn; injection Hn as <-.
    + destruct (fast_sim_loop_spec (s_0 self) r (length xs) T t_diff xs
                  epsilon HT eq_refl Heps) as (prc & Hprc & Hshape & _).
      exists xs, prc. auto.
    + destruct (shared_shock_path (s_0 self) r T t_diff xs epsilon HT Heps)
        as (prc & Hprc & Hshape & _).
      exists xs, prc. auto.
    + destruct (shared_shock_path (s_0 self) r T t_diff xs epsilon HT Heps)
        as (prc & Hprc & Hshape & _).
      exists xs, prc. auto.
Qed.

Ltac in_list :=
  repeat first [apply list_elem_of_here | apply list_elem_of_further].

(** X8.  The failures of the simulate call.  On a constructed engine whose
    [r], if given, is a float, an exception of the call is one of:
    [KeyError] for [sigma], [r] or [rho]; [LinAlgError]; the type or the
    dimension [ValueError] for [rho]; the typing error of the compiled
    loop.  The typing error comes from a two-dimensional [sigma] only, and
    every other failure leaves the generator as it was.  In particular the
    bare [ValueError] of the last [else] branch, a broadcasting error and an
    out-of-range column never come out. *)
Theorem simulate_failures (method : string) (s0 : F)
    (kw : gmap string (pyval F)) (self : engine F) upper_t g e g' :
  __init__ method s0 kw = Ok self ->
  (forall rv, kw !! "r" = Some rv -> exists x, rv = PyFloat x) ->
  prc_generator self upper_t g = (Raise e, g') ->
  e ∈ [KeyError "sigma"; KeyError "r"; KeyError "rho"; LinAlgError;
       ValueError "Illegal input type of rho";
       ValueError "Illegal input dimension of rho"; TypingError] /\
  (e = TypingError -> exists k rows, kw !! "sigma" = Some (Py2D k rows)) /\
  (e <> TypingError -> g' = g).
Proof.
  intros Hinit Hfloat Hraise.
  apply init_fields in Hinit as (Hm & Hkw & _). rewrite <- Hkw in *. clear Hkw.
  assert (Hpre : forall e0, e0 <> TypingError ->
            prc_generator self upper_t g = (Raise e0, g) ->
            e0 ∈ [KeyError "sigma"; KeyError "r"; KeyError "rho"; LinAlgError;
                  ValueError "Illegal input type of rho";
                  ValueError "Illegal input dimension of rho"; TypingError] ->
            e ∈ [KeyError "sigma"; KeyError "r"; KeyError "rho"; LinAlgError;
                 ValueError "Illegal input type of rho";
                 ValueError "Illegal input dimension of rho"; TypingError] /\
            (e = TypingError ->
             exists k rows, _kwargs self !! "sigma" = Some (Py2D k rows)) /\
            (e <> TypingError -> g' = g)).
  { intros e0 Hne Hgen Hin. rewrite Hgen in Hraise.
    injection Hraise as <- <-. split; [exact Hin|].
    split; [intros Heq; contradiction | reflexivity]. }
  assert (Hcall : forall (n : nat) sigma r eps gd,
            _kwargs self !! "sigma" = Some sigma -> n_dim self = Ok n ->
            has_shape n (length (np_diff_prepend0 (promote upper_t))) eps ->
            prc_generator self upper_t g =
              (jit_call (s_0 self) n (np_diff_prepend0 (promote upper_t))
                 (np_array_of_sigma sigma) (PyFloat r) eps, gd) ->
            e ∈ [KeyError "sigma"; KeyError "r"; KeyError "rho"; LinAlgError;
                 ValueError "Illegal input type of rho";
                 ValueError "Illegal input dimension of rho"; TypingError] /\
            (e = TypingError ->
             exists k rows, _kwargs self !! "sigma" = Some (Py2D k rows)) /\
            (e <> TypingError -> g' = g)).
  { intros n sigma r eps gd Hsigma Hn Heps Hgen. rewrite Hgen in Hraise.
    destruct (loop_call_outcome self sigma r n _ _ eps Hm Hsigma Hn eq_refl
                Heps) as [(sg & prc & _ & Hok & _)|[(k & rows & ->) Hty]].
    - rewrite Hok in Hraise. discriminate Hraise.
    - rewrite Hty in Hraise. injection Hraise as <- _.
      split; [in_list|]. split; [eauto | intros Hne; contradiction]. }
  destruct (_kwargs self !! "sigma") as [sigma|] eqn:Hsigma.
  2:{ apply (Hpre (KeyError "sigma")); [discriminate| |in_list].
      apply prc_generator_no_sigma; assumption. }
  destruct (_kwargs self !! "r") as [rv|] eqn:Hr.
  2:{ apply (Hpre (KeyError "r")); [discriminate| |in_list].
      unfold prc_generator. rewrite Hm. simpl.
      unfold kwargs, getitem. rewrite Hsigma, Hr. reflexivity. }
  destruct (Hfloat rv eq_refl) as [r ->].
  pose proof (n_dim_spec self sigma Hm Hsigma) as Hn.
  set (n := if isinstance_list sigma then len sigma else 1) in Hn.
  destruct (le_lt_dec n 1) as [Hle|Hlt].
  { pose proof (prc_generator_small self upper_t g sigma (PyFloat r) n
                  Hm Hsigma Hr Hn Hle) as Hgen.
    cbv zeta in Hgen. eapply (Hcall n sigma r); [reflexivity | exact Hn | | exact Hgen].
    apply scale_shape, np_random_normal_shape. }
  destruct (_kwargs self !! "rho") as [rho|] eqn:Hrho.
  2:{ apply (Hpre (KeyError "rho")); [discriminate| |in_list].
      eapply prc_generator_no_rho; eassumption. }
  destruct (np_linalg_cholesky rho) as [l|e0] eqn:Hchol.
  2:{ pose proof (cholesky_raises _ _ Hchol) as ->.
      apply (Hpre LinAlgError); [discriminate| |in_list].
      eapply prc_generator_cholesky_fails; eassumption. }
  assert (Htype : (exists rows, rho = Py2D KMatrix rows) \/
                  (forall rows, rho <> Py2D KMatrix rows)).
  { destruct rho as [x|k xs|[| |] rows]; try (right; discriminate).
    left. eauto. }
  destruct Htype as [[rows ->]|Htype].
  2:{ apply (Hpre (ValueError "Illegal input type of rho"));
        [discriminate| |in_list].
      eapply prc_generator_rho_type; eassumption. }
  destruct (decide (length rows = n)) as [Hside|Hside].
  2:{ apply (Hpre (ValueError "Illegal input dimension of rho"));
        [discriminate| |in_list].
      eapply prc_generator_rho_dim; eassumption. }
  pose proof (prc_generator_large self upper_t g sigma (PyFloat r) n rows l
                Hm Hsigma Hr Hn Hlt Hrho Hchol Hside) as Hgen.
  cbv zeta in Hgen.
  destruct (cholesky_inv _ _ Hchol) as (k & rows' & [= <- <-] & _ & Hpotrf).
  apply potrf_shape in Hpotrf; [|reflexivity]. rewrite Hside in Hpotrf.
  destruct (np_matmul_shape n _ l _ Hpotrf
              (np_random_normal_shape n
                 (length (np_diff_prepend0 (promote upper_t))) g))
    as (eps & Heps & Hshape).
  rewrite Heps in Hgen. simpl in Hgen.
  eapply (Hcall n sigma r); [reflexivity | exact Hn | exact Hshape | exact Hgen].
Qed.

(** X12.  A float [sigma] is treated as the one-element sequence: replacing
    the float by a list, tuple or array holding that one number changes
    nothing in what the simulate call returns and draws. *)
Theorem float_sigma_is_one_element_sequence (method : string) (s0 : F)
    (kw : gmap string (pyval F)) (self self' : engine F) (x : F)
    (k : seq_kind) upper_t g :
  __init__ method s0 kw = Ok self ->
  __init__ method s0 (<["sigma" := PySeq k [x]]> kw) = Ok self' ->
  kw !! "sigma" = Some (PyFloat x) ->
  prc_generator self' upper_t g = prc_generator self upper_t g.
Proof.
  intros Hinit Hinit' Hsigma.
  apply init_fields in Hinit as (Hm & Hkw & Hs0).
  apply init_fields in Hinit' as (Hm' & Hkw' & Hs0').
  rewrite <- Hkw in Hsigma.
  assert (Hsigma' : _kwargs self' !! "sigma" = Some (PySeq k [x]))
    by (rewrite Hkw'; apply lookup_insert_eq).
  assert (Hn : n_dim self = Ok 1) by (apply (n_dim_spec self _ Hm Hsigma)).
  assert (Hn' : n_dim self' = Ok 1).
  { rewrite (n_dim_spec self' _ Hm' Hsigma'). destruct k; reflexivity. }
  destruct (_kwargs self !! "r") as [r|] eqn:Hr.
  - assert (Hr' : _kwargs self' !! "r" = Some r)
      by (rewrite Hkw', lookup_insert_ne, <- Hkw by discriminate; exact Hr).
    pose proof (prc_generator_small self upper_t g _ r 1 Hm Hsigma Hr Hn
                  (le_n 1)) as Hgen.
    pose proof (prc_generator_small self' upper_t g _ r 1 Hm' Hsigma' Hr' Hn'
                  (le_n 1)) as Hgen'.
    cbv zeta in Hgen, Hgen'. rewrite Hgen, Hgen'. unfold s_0.
    rewrite Hs0, Hs0'. reflexivity.
  - assert (Hr' : _kwargs self' !! "r" = None)
      by (rewrite Hkw', lookup_insert_ne, <- Hkw by discriminate; exact Hr).
    unfold prc_generator. rewrite Hm, Hm'. simpl.
    unfold kwargs, getitem. rewrite Hsigma, Hsigma', Hr, Hr'. reflexivity.
Qed.

End GeneratorOutcomes.

(** ** The further properties on the sample configurations *)

Section FurtherInstances.
Import SimEngine.
Local Open Scope R_scope.

Ltac whitelisted Hkey :=
  repeat (apply lookup_insert_is_Some in Hkey as [<-|[_ Hkey]];
          [repeat first [apply list_elem_of_here | apply list_elem_of_further]|]);
  rewrite lookup_empty in Hkey; destruct Hkey as [? Hkey]; discriminate Hkey.

Lemma no_r_keys :
  forall key, is_Some (no_r_kwargs !! key) -> key ∈ ["sigma"; "r"; "rho"].
Proof. intros key Hkey. unfold no_r_kwargs in Hkey. whitelisted Hkey. Qed.

Lemma no_rho_keys :
  forall key, is_Some (no_rho_kwargs !! key) -> key ∈ ["sigma"; "r"; "rho"].
Proof. intros key Hkey. unfold no_rho_kwargs in Hkey. whitelisted Hkey. Qed.

Lemma singleton_sigma_keys :
  forall key,
    is_Some (<["sigma" := PySeq KList [2 / 5]]> scalar_sigma_kwargs !! key) ->
    key ∈ ["sigma"; "r"; "rho"].
Proof.
  intros key Hkey. unfold scalar_sigma_kwargs, configuration in Hkey.
  whitelisted Hkey.
Qed.

Lemma construction_outcome_witness :
  "Heston" <> "GeoBrownian" /\
  __init__ "Heston" 100 unlisted_key_kwargs =
    Raise (ValueError "Illegal input of method!") /\
  is_Some (unlisted_key_kwargs !! "mu") /\ ("mu" ∉ ["sigma"; "r"; "rho"]) /\
  __init__ "GeoBrownian" 100 unlisted_key_kwargs =
    Raise (ValueError "Illegal input of kwargs!").
Proof.
  assert (Hne : "Heston" <> "GeoBrownian") by discriminate.
  assert (Hmu : is_Some (unlisted_key_kwargs !! "mu"))
    by (exists (PyFloat (1 / 10)); reflexivity).
  assert (Hout : "mu" ∉ ["sigma"; "r"; "rho"]).
  { rewrite !not_elem_of_cons. repeat split; try discriminate.
    apply not_elem_of_nil. }
  split; [exact Hne|].
  split; [apply (proj1 (construction_outcome (F := R) "Heston" 100
                          unlisted_key_kwargs) Hne)|].
  split; [exact Hmu|]. split; [exact Hout|].
  apply (proj1 (proj2 (construction_outcome (F := R) "GeoBrownian" 100
                         unlisted_key_kwargs)) eq_refl).
  exists "mu". split; [exact Hmu | exact Hout].
Defined.

Lemma missing_r_reported_before_rho_witness :
  __init__ "GeoBrownian" 100 no_r_kwargs = Ok (sample_engine no_r_kwargs) /\
  is_Some (no_r_kwargs !! "sigma") /\ no_r_kwargs !! "r" = None /\
  prc_generator (sample_engine no_r_kwargs) (TSeq [1; 2]) sample_rng =
    (Raise (KeyError "r"), sample_rng).
Proof.
  assert (Hinit : __init__ "GeoBrownian" 100 no_r_kwargs =
                  Ok (sample_engine no_r_kwargs)) by (apply init_ok, no_r_keys).
  assert (Hsigma : is_Some (no_r_kwargs !! "sigma"))
    by (exists (PySeq KList sample_sigma); reflexivity).
  split; [exact Hinit|]. split; [exact Hsigma|]. split; [reflexivity|].
  apply (missing_r_reported_before_rho (F := R) "GeoBrownian" 100 no_r_kwargs
           (sample_engine no_r_kwargs) (TSeq [1; 2]) sample_rng
           Hinit Hsigma eq_refl).
Defined.

Lemma missing_rho_with_several_dimensions_witness :
  __init__ "GeoBrownian" 100 no_rho_kwargs = Ok (sample_engine no_rho_kwargs) /\
  is_Some (no_rho_kwargs !! "sigma") /\ is_Some (no_rho_kwargs !! "r") /\
  n_dim (sample_engine no_rho_kwargs) = Ok 2%nat /\ (1 < 2)%nat /\
  no_rho_kwargs !! "rho" = None /\
  prc_generator (sample_engine no_rho_kwargs) (TSeq [1; 2]) sample_rng =
    (Raise (KeyError "rho"), sample_rng).
Proof.
  assert (Hinit : __init__ "GeoBrownian" 100 no_rho_kwargs =
                  Ok (sample_engine no_rho_kwargs))
    by (apply init_ok, no_rho_keys).
  assert (Hsigma : is_Some (no_rho_kwargs !! "sigma"))
    by (exists (PySeq KList sample_sigma); reflexivity).
  assert (Hr : is_Some (no_rho_kwargs !! "r"))
    by (exists (PyFloat (3 / 100)); reflexivity).
  assert (Hlt : (1 < 2)%nat) by lia.
  split; [exact Hinit|]. split; [exact Hsigma|]. split; [exact Hr|].
  split; [reflexivity|]. split; [exact Hlt|]. split; [reflexivity|].
  apply (missing_rho_with_several_dimensions (F := R) "GeoBrownian" 100
           no_rho_kwargs (sample_engine no_rho_kwargs) 2 (TSeq [1; 2])
           sample_rng Hinit Hsigma Hr eq_refl Hlt eq_refl).
Defined.

Lemma type_check_precedes_dimension_check_witness :
  __init__ "GeoBrownian" 100 oversized_ndarray_kwargs =
    Ok (sample_engine oversized_ndarray_kwargs) /\
  is_Some (oversized_ndarray_kwargs !! "sigma") /\
  is_Some (oversized_ndarray_kwargs !! "r") /\
  n_dim (sample_engine oversized_ndarray_kwargs) = Ok 2%nat /\ (1 < 2)%nat /\
  oversized_ndarray_kwargs !! "rho" = Some (Py2D KNdarray2 identity3) /\
  KNdarray2 <> KMatrix /\
  (exists l, np_linalg_cholesky (Py2D KNdarray2 identity3) = Ok l) /\
  prc_generator (sample_engine oversized_ndarray_kwargs) (TSeq [1; 2])
    sample_rng =
    (Raise (ValueError "Illegal input type of rho"), sample_rng).
Proof.
  assert (Hinit := init_sample 100 (PySeq KList sample_sigma)
                     (Py2D KNdarray2 identity3)).
  assert (Hsigma : is_Some (oversized_ndarray_kwargs !! "sigma"))
    by (exists (PySeq KList sample_sigma); reflexivity).
  assert (Hr : is_Some (oversized_ndarray_kwargs !! "r"))
    by (exists (PyFloat (3 / 100)); reflexivity).
  assert (Hlt : (1 < 2)%nat) by lia.
  assert (Hk : KNdarray2 <> KMatrix) by discriminate.
  assert (Hchol := identity3_factorises KNdarray2).
  split; [exact Hinit|]. split; [exact Hsigma|]. split; [exact Hr|].
  split; [reflexivity|]. split; [exact Hlt|]. split; [reflexivity|].
  split; [exact Hk|]. split; [exact Hchol|].
  apply (type_check_precedes_dimension_check (F := R) "GeoBrownian" 100
           oversized_ndarray_kwargs (sample_engine oversized_ndarray_kwargs)
           2 KNdarray2 identity3 (TSeq [1; 2]) sample_rng
           Hinit Hsigma Hr eq_refl Hlt eq_refl Hk Hchol).
Defined.

Lemma draws_consumed_witness :
  __init__ "GeoBrownian" 100 sample_kwargs = Ok (sample_engine sample_kwargs) /\
  is_Some (sample_kwargs !! "sigma") /\ is_Some (sample_kwargs !! "r") /\
  n_dim (sample_engine sample_kwargs) = Ok 2%nat /\
  (exists rows l,
     sample_kwargs !! "rho" = Some (Py2D KMatrix rows) /\
     length rows = 2%nat /\
     np_linalg_cholesky (Py2D KMatrix rows) = Ok l) /\
  snd (prc_generator (sample_engine sample_kwargs) (TSeq [1; 2; 3])
         sample_rng) =
    {| stream := INR; drawn := 0 + 2 * 3 |}.
Proof.
  assert (Hinit := init_sample 100 (PySeq KList sample_sigma)
                     (Py2D KMatrix sample_rho)).
  assert (Hsigma : is_Some (sample_kwargs !! "sigma"))
    by (exists (PySeq KList sample_sigma); reflexivity).
  assert (Hr : is_Some (sample_kwargs !! "r"))
    by (exists (PyFloat (3 / 100)); reflexivity).
  assert (Hrho : exists rows l,
             sample_kwargs !! "rho" = Some (Py2D KMatrix rows) /\
             length rows = 2%nat /\
             np_linalg_cholesky (Py2D KMatrix rows) = Ok l).
  { destruct (sample_rho_factorises KMatrix) as [l Hl].
    exists sample_rho, l. repeat split. exact Hl. }
  split; [exact Hinit|]. split; [exact Hsigma|]. split; [exact Hr|].
  split; [reflexivity|]. split; [exact Hrho|].
  apply (draws_consumed (F := R) "GeoBrownian" 100 sample_kwargs
           (sample_engine sample_kwargs) 2 (TSeq [1; 2; 3]) sample_rng
           Hinit Hsigma Hr eq_refl (fun _ => Hrho)).
Defined.

Lemma single_dimension_shares_draws_witness :
  __init__ "GeoBrownian" 100 tuple_sigma_kwargs =
    Ok (sample_engine tuple_sigma_kwargs) /\
  tuple_sigma_kwargs !! "sigma" = Some (PySeq KTuple sample_sigma) /\
  np_array_of_sigma (PySeq KTuple sample_sigma) = Arr1 sample_sigma /\
  tuple_sigma_kwargs !! "r" = Some (PyFloat (3 / 100)) /\
  n_dim (sample_engine tuple_sigma_kwargs) = Ok 1%nat /\
  exists prc,
    fst (prc_generator (sample_engine tuple_sigma_kwargs) (TSeq [1; 2; 3])
           sample_rng) = Ok prc /\
    has_shape 3 2 prc.
Proof.
  assert (Hinit := init_sample 100 (PySeq KTuple sample_sigma)
                     (Py2D KMatrix sample_rho)).
  split; [exact Hinit|]. split; [reflexivity|]. split; [reflexivity|].
  split; [reflexivity|]. split; [reflexivity|].
  destruct (single_dimension_shares_draws (F := R) "GeoBrownian" 100
              tuple_sigma_kwargs (sample_engine tuple_sigma_kwargs)
              (PySeq KTuple sample_sigma) sample_sigma (3 / 100)
              (TSeq [1; 2; 3]) sample_rng Hinit eq_refl eq_refl eq_refl
              eq_refl) as (prc & Hprc & Hshape & _).
  exists prc. split; [exact Hprc | exact Hshape].
Defined.

Lemma simulate_failures_witness :
  __init__ "GeoBrownian" 100 indefinite_rho_kwargs =
    Ok (sample_engine indefinite_rho_kwargs) /\
  (forall rv, indefinite_rho_kwargs !! "r" = Some rv ->
              exists x, rv = PyFloat x) /\
  prc_generator (sample_engine indefinite_rho_kwargs) (TSeq [1; 2]) sample_rng =
    (Raise LinAlgError, sample_rng) /\
  LinAlgError ∈ [KeyError "sigma"; KeyError "r"; KeyError "rho"; LinAlgError;
                 ValueError "Illegal input type of rho";
                 ValueError "Illegal input dimension of rho"; TypingError].
Proof.
  assert (Hinit := init_sample 100 (PySeq KList sample_sigma)
                     (Py2D KMatrix indefinite_rho)).
  assert (Hfloat : forall rv, indefinite_rho_kwargs !! "r" = Some rv ->
                              exists x, rv = PyFloat x).
  { intros rv [= <-]. eauto. }
  assert (Hgen : prc_generator (sample_engine indefinite_rho_kwargs)
                   (TSeq [1; 2]) sample_rng = (Raise LinAlgError, sample_rng)).
  { apply (prc_generator_cholesky_fails (sample_engine indefinite_rho_kwargs)
             (TSeq [1; 2]) sample_rng (PySeq KList sample_sigma)
             (PyFloat (3 / 100)) 2 (Py2D KMatrix indefinite_rho));
      try reflexivity; [lia|].
    apply (cholesky_not_psd KMatrix indefinite_rho [1; -1]);
      [exact indefinite_rho_symmetric | reflexivity
      | exact indefinite_rho_negative]. }
  split; [exact Hinit|]. split; [exact Hfloat|]. split; [exact Hgen|].
  apply (simulate_failures (F := R) "GeoBrownian" 100 indefinite_rho_kwargs
           (sample_engine indefinite_rho_kwargs) (TSeq [1; 2]) sample_rng
           LinAlgError sample_rng Hinit Hfloat Hgen).
Defined.

Lemma float_sigma_is_one_element_sequence_witness :
  __init__ "GeoBrownian" 100 scalar_sigma_kwargs =
    Ok (sample_engine scalar_sigma_kwargs) /\
  __init__ "GeoBrownian" 100
    (<["sigma" := PySeq KList [2 / 5]]> scalar_sigma_kwargs) =
    Ok (sample_engine (<["sigma" := PySeq KList [2 / 5]]> scalar_sigma_kwargs)) /\
  scalar_sigma_kwargs !! "sigma" = Some (PyFloat (2 / 5)) /\
  prc_generator
    (sample_engine (<["sigma" := PySeq KList [2 / 5]]> scalar_sigma_kwargs))
    (TSeq [1; 2]) sample_rng =
  prc_generator (sample_engine scalar_sigma_kwargs) (TSeq [1; 2]) sample_rng.
Proof.
  assert (Hinit := init_sample 100 (PyFloat (2 / 5)) (Py2D KMatrix sample_rho)).
  assert (Hinit' : __init__ "GeoBrownian" 100
                     (<["sigma" := PySeq KList [2 / 5]]> scalar_sigma_kwargs) =
                   Ok (sample_engine
                         (<["sigma" := PySeq KList [2 / 5]]> scalar_sigma_kwargs)))
    by (apply init_ok, singleton_sigma_keys).
  split; [exact Hinit|]. split; [exact Hinit'|]. split; [reflexivity|].
  apply (float_sigma_is_one_element_sequence (F := R) "GeoBrownian" 100
           scalar_sigma_kwargs (sample_engine scalar_sigma_kwargs)
           (sample_engine (<["sigma" := PySeq KList [2 / 5]]> scalar_sigma_kwargs))
           (2 / 5) KList (TSeq [1; 2]) sample_rng Hinit Hinit' eq_refl).
Defined.

End FurtherInstances.

(** ** The path evolver in binary64 *)

Section EvolverInstances.
Local Open Scope float_scope.

Lemma path_of_prefix_witness :
  Forall (fun row => length ([0.5] ++ [0.5]) <= length row)
         [[0; 1]; [1; 0]] /\
  (exists prc,
     _fast_sim_loop_geo_brownian 100 2 ([0.5] ++ [0.5]) b64_sigma b64_rate
       [[0; 1]; [1; 0]] = Ok prc /\
     _fast_sim_loop_geo_brownian 100 2 [0.5] b64_sigma b64_rate
       [[0; 1]; [1; 0]] = Ok (take (length [0.5]) prc)) /\
  Forall (fun row => length ([0.5] ++ [0.5]) <= length row)
         [[0; 1]; [1; 0]; [0; 0]] /\
  _fast_sim_loop_geo_brownian 100 2 [0.5] b64_sigma b64_rate
    [[0; 1]; [1; 0]; [0; 0]] = Raise (ValueError broadcast_msg) /\
  _fast_sim_loop_geo_brownian 100 2 ([0.5] ++ [0.5]) b64_sigma b64_rate
    [[0; 1]; [1; 0]; [0; 0]] = Raise (ValueError broadcast_msg).
Proof.
  assert (Hrows : Forall (fun row => length ([0.5] ++ [0.5]) <= length row)
                         [[0; 1]; [1; 0]])
    by (repeat constructor).
  assert (Hrows' : Forall (fun row => length ([0.5] ++ [0.5]) <= length row)
                          [[0; 1]; [1; 0]; [0; 0]])
    by (repeat constructor).
  split; [exact Hrows|]. split.
  - eexists. split; [reflexivity|].
    apply (proj1 (path_of_prefix (F := float) 100 b64_rate 2 [0.5] [0.5]
                    b64_sigma [[0; 1]; [1; 0]] Hrows)).
    reflexivity.
  - split; [exact Hrows'|]. split; [reflexivity|].
    apply (proj2 (path_of_prefix (F := float) 100 b64_rate 2 [0.5] [0.5]
                    b64_sigma [[0; 1]; [1; 0]; [0; 0]] Hrows')).
    reflexivity.
Defined.


End EvolverInstances.
